(** * linalg::Matrix<T> (include/Matrix/matrix.h): a shallow embedding

    The class wraps one private member, [std::vector<std::vector<T>> m_matrix].
    A [std::vector] is a [list]; [operator[]] out of range is undefined
    behaviour in C++ and is the outcome [Undefined] here; [std::abort()] is
    the outcome [Aborts], which carries what was written to [std::cout] and
    [std::cerr] before the process stopped.

    The loop counters of the source are [int] and are compared with
    [size_t] sizes; here both are [nat], which is exact for vectors of
    fewer than 2^31 elements.  Loop bounds such as [res.m_matrix.size()]
    are read once when a loop is entered: no vector is ever resized inside
    a loop of this file, so re-reading them on every iteration, as the
    source does, gives the same number. *)

From stdpp Require Import base tactics option list strings pretty.
From Stdlib Require Import ZArith Lia.
From Stdlib Require PrimFloat.


(** ** Outcomes of a call *)

Inductive outcome (A : Type) : Type :=
| Returns (a : A)
| Aborts (out err : string)
| Undefined.
Arguments Returns {A} a.
Arguments Aborts {A} out err.
Arguments Undefined {A}.

#[global] Instance outcome_ret : MRet outcome := λ A a, Returns a.
#[global] Instance outcome_bind : MBind outcome := λ A B f c,
  match c with
  | Returns a => f a
  | Aborts out err => Aborts out err
  | Undefined => Undefined
  end.

Definition returned {A} (c : outcome A) : Prop := ∃ a, c = Returns a.
Definition aborted {A} (c : outcome A) : Prop := ∃ out err, c = Aborts out err.

(** [for (int i = lo; i < hi; i++) body], threading the state [s]. *)
Fixpoint for_loop {St} (n : nat) (i : nat) (body : nat → St → outcome St)
    (s : St) : outcome St :=
  match n with
  | 0 => Returns s
  | S n' => s' ← body i s; for_loop n' (S i) body s'
  end.

Definition for_range {St} (lo hi : nat) (body : nat → St → outcome St)
    (s : St) : outcome St :=
  for_loop (hi - lo) lo body s.

(** [v[i]] as an rvalue and [v[i] = x]: both undefined out of range. *)
Definition vec_at {A} (v : list A) (i : nat) : outcome A :=
  match v !! i with
  | Some x => Returns x
  | None => Undefined
  end.

Definition vec_set {A} (v : list A) (i : nat) (x : A) : outcome (list A) :=
  if decide (i < length v) then Returns (<[i:=x]> v) else Undefined.

(** An output stream is the text written to it so far. *)
Definition ostream := string.
Definition put (text : string) (output : ostream) : ostream := output +:+ text.
Definition newline : string := String (Ascii.ascii_of_nat 10) EmptyString.
(** [std::endl] writes a newline and flushes. *)
Definition endl : string := newline.
Notation "output <<< text" := (put text output)
  (at level 50, left associativity, only parsing).

(** ** The element type

    What the template uses of [T]: conversion of the literals 0 and 1,
    [+] (through [+=]), [*], [==] and [<<] on a stream. *)
Class Element (T : Type) := {
  T_zero : T;
  T_one : T;
  T_add : T → T → T;
  T_mul : T → T → T;
  T_eqb : T → T → bool;
  T_show : T → string;
}.

(** The laws of 0, 1 and [==] that the identity-matrix property needs;
    they hold for the integer types and fail for IEEE floating point
    (NaN * 0, NaN == NaN). *)
Class ElementLaws (T : Type) `{Element T} : Prop := {
  T_add_0_l : ∀ x : T, T_add T_zero x = x;
  T_add_0_r : ∀ x : T, T_add x T_zero = x;
  T_mul_0_r : ∀ x : T, T_mul x T_zero = T_zero;
  T_mul_1_r : ∀ x : T, T_mul x T_one = x;
  T_eqb_refl : ∀ x : T, T_eqb x x = true;
}.

#[global] Instance Z_Element : Element Z := {|
  T_zero := 0%Z;
  T_one := 1%Z;
  T_add := Z.add;
  T_mul := Z.mul;
  T_eqb := Z.eqb;
  T_show := pretty;
|}.


(** ** The class *)

Record Matrix (T : Type) : Type := mkMatrix { m_matrix : list (list T) }.
Arguments mkMatrix {T} m_matrix.
Arguments m_matrix {T} _.

Section Matrix.
Context {T : Type} `{Element T}.

(** [Matrix(const T mat) : m_matrix{1, std::vector<T>(1, mat)}] *)
Definition Matrix_of_scalar (mat : T) : Matrix T :=
  mkMatrix (replicate 1 (replicate 1 mat)).

(** [Matrix(const std::vector<T>& mat) : m_matrix{1, mat}] *)
Definition Matrix_of_vector (mat : list T) : Matrix T :=
  mkMatrix (replicate 1 mat).

(** [Matrix(const std::vector<std::vector<T>>& mat) : m_matrix{mat}], whose
    body compares the sizes of every two adjacent rows and aborts on the
    first pair that differs. *)
Definition nested_check (m_matrix : list (list T)) (row : nat) (_ : ())
    : outcome () :=
  prev ← vec_at m_matrix (row - 1);
  cur ← vec_at m_matrix row;
  if decide (length prev ≠ length cur) then
    Aborts ("" <<< pretty (length prev) <<< ", " <<< pretty (length cur) <<< newline)
           ("" <<< "Contructor - Matrix dimension do not match" <<< endl)
  else Returns ().

Definition Matrix_of_nested (mat : list (list T)) : outcome (Matrix T) :=
  let m_matrix := mat in
  _ ← for_range 1 (length m_matrix) (nested_check m_matrix) ();
  Returns (mkMatrix m_matrix).

(** [Matrix(const size_t& row, const size_t& col, T value=0)
      : m_matrix{row, std::vector<T>(col, value)}] *)
Definition Matrix_of_dims_value (row col : nat) (value : T) : Matrix T :=
  mkMatrix (replicate row (replicate col value)).

Definition Matrix_of_dims (row col : nat) : Matrix T :=
  Matrix_of_dims_value row col T_zero.

(** [m.m_matrix[i][j]] read and written. *)
Definition mat_get (m : Matrix T) (i j : nat) : outcome T :=
  row ← vec_at (m_matrix m) i;
  vec_at row j.

Definition mat_set (m : Matrix T) (i j : nat) (x : T) : outcome (Matrix T) :=
  row ← vec_at (m_matrix m) i;
  row' ← vec_set row j x;
  rows' ← vec_set (m_matrix m) i row';
  Returns (mkMatrix rows').

(** [Matrix<T> operator*(const Matrix<T>& mat1, const Matrix<T>& mat2)]:
    the loops run over [i], then [k], then [j]. *)
Definition mul_step (mat1 mat2 : Matrix T) (i k j : nat) (res : Matrix T)
    : outcome (Matrix T) :=
  a ← mat_get mat1 i k;
  b ← mat_get mat2 k j;
  c ← mat_get res i j;
  mat_set res i j (T_add c (T_mul a b)).

Definition operator_mul (mat1 mat2 : Matrix T) : outcome (Matrix T) :=
  lhs0 ← vec_at (m_matrix mat1) 0;
  if decide (length lhs0 ≠ length (m_matrix mat2)) then
    Aborts "" ("" <<< "Matrix dimension do not match" <<< endl)
  else
    rhs0 ← vec_at (m_matrix mat2) 0;
    let res := Matrix_of_dims (length (m_matrix mat1)) (length rhs0) in
    res ← for_range 0 (length (m_matrix res)) (λ i res,
      for_range 0 (length lhs0) (λ k res,
        res_i ← vec_at (m_matrix res) i;
        for_range 0 (length res_i) (λ j res,
          mul_step mat1 mat2 i k j res) res) res) res;
    Returns res.

(** The implementation kept in the header as a comment ("Original
    implementation of matrix multiplication"): [assert] in place of the
    test, and the loops over [i], then [j], then [k].  A failed [assert]
    writes a diagnostic in the C library's wording and aborts. *)
Definition operator_mul_original (mat1 mat2 : Matrix T) : outcome (Matrix T) :=
  lhs0 ← vec_at (m_matrix mat1) 0;
  if decide (length lhs0 = length (m_matrix mat2)) then
    rhs0 ← vec_at (m_matrix mat2) 0;
    let res := Matrix_of_dims (length (m_matrix mat1)) (length rhs0) in
    res ← for_range 0 (length (m_matrix res)) (λ i res,
      res_i ← vec_at (m_matrix res) i;
      for_range 0 (length res_i) (λ j res,
        for_range 0 (length lhs0) (λ k res,
          mul_step mat1 mat2 i k j res) res) res) res;
    Returns res
  else
    Aborts "" ("" <<< "Assertion `mat1.m_matrix[0].size() == mat2.m_matrix.size()' failed."
                  <<< endl).

(** [Matrix<T> Matrix<T>::transpose()].  The method is not [const]: the
    state of its loops is the receiver together with [res], and the call
    yields the receiver as it is left and the matrix returned. *)
Definition transpose_step (i j : nat) (st : Matrix T * Matrix T)
    : outcome (Matrix T * Matrix T) :=
  let '(this, res) := st in
  x ← mat_get this i j;
  res' ← mat_set res j i x;
  Returns (this, res').

Definition transpose (this : Matrix T) : outcome (Matrix T * Matrix T) :=
  this0 ← vec_at (m_matrix this) 0;
  let res := Matrix_of_dims (length this0) (length (m_matrix this)) in
  for_range 0 (length (m_matrix this)) (λ i st,
    this0 ← vec_at (m_matrix st.1) 0;
    for_range 0 (length this0) (λ j st, transpose_step i j st) st) (this, res).

(** [std::pair<size_t, size_t> Matrix<T>::size()] *)
Definition size (this : Matrix T) : outcome (nat * nat) :=
  row0 ← vec_at (m_matrix this) 0;
  Returns (length (m_matrix this), length row0).

(** [std::ostream& operator<< (std::ostream& output, const Matrix<T>& mat)].
    [mat.m_matrix.size()-1] is a [size_t]: on a matrix without rows it wraps
    to the largest value, the first loop is entered with [i = 0] and reads
    [mat.m_matrix[0]], which does not exist. *)
Definition put_row (mat : Matrix T) (i : nat) (output : ostream)
    : outcome ostream :=
  let output := output <<< "[ " in
  row ← vec_at (m_matrix mat) i;
  output ← for_range 0 (length row) (λ j output,
    x ← mat_get mat i j;
    Returns (output <<< T_show x <<< " ")) output;
  Returns (output <<< "]").

Definition operator_shl (output : ostream) (mat : Matrix T) : outcome ostream :=
  let output := output <<< "[" in
  match length (m_matrix mat) with
  | 0 => _ ← put_row mat 0 output; Undefined
  | S last =>
    output ← for_range 0 last (λ i output,
      output ← put_row mat i output;
      Returns (output <<< (newline +:+ " "))) output;
    output ← for_range last (length (m_matrix mat)) (λ i output,
      put_row mat i output) output;
    Returns (output <<< "]" <<< newline)
  end.

(** [operator<< (std::ostream& output, const std::pair<size_t, size_t>& size)] *)
Definition operator_shl_pair (output : ostream) (size : nat * nat) : ostream :=
  output <<< "(" <<< pretty size.1 <<< ", " <<< pretty size.2 <<< (")" +:+ newline).

(** [std::vector]'s [operator==]: equal sizes and [std::equal] on the
    elements, with the element type's own [==]. *)
Fixpoint std_equal {A} (eqb : A → A → bool) (v1 v2 : list A) : bool :=
  match v1, v2 with
  | x :: v1', y :: v2' => eqb x y && std_equal eqb v1' v2'
  | _, _ => true
  end.

Definition vector_eq {A} (eqb : A → A → bool) (v1 v2 : list A) : bool :=
  bool_decide (length v1 = length v2) && std_equal eqb v1 v2.

(** [bool operator== (const Matrix<T>& m1, const Matrix<T>& m2)] *)
Definition operator_eq (m1 m2 : Matrix T) : bool :=
  vector_eq (vector_eq T_eqb) (m_matrix m1) (m_matrix m2).

(** [static bool isSame(const linalg::Matrix<T>& m1, const linalg::Matrix<T>& m2)] *)
Definition isSame (m1 m2 : Matrix T) : bool := operator_eq m1 m2.

End Matrix.

(** ** Vocabulary of the specification *)

Section Vocabulary.
Context {T : Type} `{Element T}.

(** The cell in row [i] and column [j], when there is one. *)
Definition cell (m : Matrix T) (i j : nat) : option T :=
  row ← m_matrix m !! i; row !! j.

Definition entry (m : Matrix T) (i j : nat) : T := default T_zero (cell m i j).

(** [r] rows, each of [c] elements. *)
Definition has_shape (m : Matrix T) (r c : nat) : Prop :=
  length (m_matrix m) = r ∧ Forall (λ row, length row = c) (m_matrix m).

Definition equal_rows (mat : list (list T)) : Prop :=
  ∀ i j ri rj, mat !! i = Some ri → mat !! j = Some rj → length ri = length rj.

(** Row [row] and the row before it differ in length. *)
Definition adjacent_differ (mat : list (list T)) (row : nat) : Prop :=
  ∃ p q, mat !! (row - 1) = Some p ∧ mat !! row = Some q ∧ length p ≠ length q.

(** At least one row and at least one column. *)
Definition min_1x1 (m : Matrix T) : Prop :=
  0 < length (m_matrix m) ∧ Forall (λ row, 0 < length row) (m_matrix m).

(** The sum of the first [n] products of row [i] of [lhs] with column [j]
    of [rhs], added one after the other to the zero of [T]. *)
Definition dot (lhs rhs : Matrix T) (i j n : nat) : T :=
  foldl (λ acc t, T_add acc (T_mul (entry lhs i t) (entry rhs t j)))
        T_zero (seq 0 n).

(** The [n] x [n] matrix with 1 on the diagonal and 0 elsewhere. *)
Definition identity (n : nat) : Matrix T :=
  mkMatrix ((λ i, (λ j, if decide (i = j) then T_one else T_zero) <$> seq 0 n)
            <$> seq 0 n).

(** The text of one row, [[ e0 e1 ... en ]]: every element is followed by
    one space. *)
Definition cells_text (row : list T) : string :=
  foldr (λ x rest, T_show x +:+ " " +:+ rest) "" row.

Definition row_text (row : list T) : string :=
  "[ " +:+ cells_text row +:+ "]".

(** The text of a whole matrix: the rows, a newline and a space between
    each two of them, inside a pair of brackets and followed by a newline. *)
Definition matrix_text (rows : list (list T)) : string :=
  "[" +:+ String.concat (newline +:+ " ") (row_text <$> rows) +:+ "]" +:+ newline.

(** The matrix [res] has [r] rows of [c] cells and holds [v i j] in
    cell [(i, j)]. *)
Definition holds (v : nat → nat → T) (r c : nat) (res : Matrix T) : Prop :=
  has_shape res r c ∧ ∀ i j, i < r → j < c → cell res i j = Some (v i j).

(** What [res] holds when the loops of [operator*] stand at [(i, k, j)]:
    the rows before [i] are finished, row [i] has taken in [k] products,
    and one more in the columns before [j]. *)
Definition mul_progress (lhs rhs : Matrix T) (n i k j : nat) (i' j' : nat) : T :=
  if decide (i' < i) then dot lhs rhs i' j' n
  else if decide (i' = i) then
    if decide (j' < j) then dot lhs rhs i' j' (S k) else dot lhs rhs i' j' k
  else T_zero.

(** The same for the loops of the original implementation, at [(i, j, k)]:
    in row [i] the cells before [j] are finished and cell [j] has taken in
    [k] products. *)
Definition mul_progress_original (lhs rhs : Matrix T) (n i j k : nat)
    (i' j' : nat) : T :=
  if decide (i' < i) then dot lhs rhs i' j' n
  else if decide (i' = i) then
    if decide (j' < j) then dot lhs rhs i' j' n
    else if decide (j' = j) then dot lhs rhs i' j' k else T_zero
  else T_zero.

(** What [res] holds when the loops of [transpose] stand at [(i, j)]. *)
Definition transpose_progress (this : Matrix T) (i j : nat) (j' i' : nat) : T :=
  if decide (i' < i ∨ (i' = i ∧ j' < j)) then entry this i' j' else T_zero.

End Vocabulary.

(** The matrices of the specification's examples, over the integers. *)
Section Examples.
Local Open Scope Z_scope.

Definition square_a : Matrix Z := mkMatrix [[1; 2]; [3; 4]].
Definition square_b : Matrix Z := mkMatrix [[5; 6]; [7; 8]].
Definition row_123 : Matrix Z := mkMatrix [[1; 2; 3]].
Definition wide : Matrix Z := mkMatrix [[1; 2; 3]; [4; 5; 6]].

End Examples.

(** ** Vocabulary of the further properties *)

(** The laws of a semiring with a commutative addition, for the algebra of
    products; the integer types obey them. *)
Class ElementSemiring (T : Type) `{Element T} : Prop := {
  S_add_assoc : ∀ x y z : T, T_add x (T_add y z) = T_add (T_add x y) z;
  S_add_comm : ∀ x y : T, T_add x y = T_add y x;
  S_add_0_l : ∀ x : T, T_add T_zero x = x;
  S_mul_assoc : ∀ x y z : T, T_mul x (T_mul y z) = T_mul (T_mul x y) z;
  S_mul_0_l : ∀ x : T, T_mul T_zero x = T_zero;
  S_mul_0_r : ∀ x : T, T_mul x T_zero = T_zero;
  S_mul_1_l : ∀ x : T, T_mul T_one x = x;
  S_mul_1_r : ∀ x : T, T_mul x T_one = x;
  S_distr_l : ∀ x y z : T, T_mul x (T_add y z) = T_add (T_mul x y) (T_mul x z);
  S_distr_r : ∀ x y z : T, T_mul (T_add x y) z = T_add (T_mul x z) (T_mul y z);
}.

Section FurtherVocabulary.
Context {T : Type} `{Element T}.

(** The invariant of the class: rows of one length, at least one row and
    at least one column. *)
Definition valid (m : Matrix T) : Prop :=
  ∃ r c, 0 < r ∧ 0 < c ∧ has_shape m r c.

(** [f 0 + f 1 + ... + f (n-1)], added from the left to the zero of [T]. *)
Definition sum (f : nat → T) (n : nat) : T :=
  foldl (λ acc t, T_add acc (f t)) T_zero (seq 0 n).

(** The products of the elements of two sequences, pair by pair, added from
    the left to the zero of [T]. *)
Definition inner (u v : list T) : T :=
  foldl (λ acc xy, T_add acc (T_mul xy.1 xy.2)) T_zero (zip u v).

End FurtherVocabulary.


(** A 3 x 2 matrix over the integers, the transpose of [wide]. *)
Definition tall : Matrix Z := mkMatrix [[1; 4]; [2; 5]; [3; 6]]%Z.

(** The integers obey the laws. *)
#[global] Instance Z_ElementSemiring : ElementSemiring Z.
Proof. split; intros; cbn; lia. Qed.

#[global] Instance Z_ElementLaws : ElementLaws Z.
Proof. split; intros x; cbn; lia. Qed.

(** ** Loops and vectors *)

Section Loops.
Context {St : Type}.
Implicit Types (body : nat → St → outcome St) (P : nat → St → Prop).

Lemma bind_Returns {A B} (a : A) (f : A → outcome B) : (Returns a ≫= f) = f a.
Proof. reflexivity. Qed.

Lemma for_loop_S n i body s :
  for_loop (S n) i body s = (body i s ≫= for_loop n (S i) body).
Proof. reflexivity. Qed.

(** The invariant rule: a body that returns and carries [P] from [k] to
    [S k] makes the loop return, with [P] at the bound. *)
Lemma for_loop_inv P n i body s :
  P i s →
  (∀ k s, i ≤ k < i + n → P k s → ∃ s', body k s = Returns s' ∧ P (S k) s') →
  ∃ s', for_loop n i body s = Returns s' ∧ P (i + n) s'.
Proof.
  revert i s. induction n as [|n IH]; intros i s Hs Hbody.
  - exists s. by rewrite Nat.add_0_r.
  - destruct (Hbody i s) as (s1 & Hrun & Hs1); [lia | done |].
    destruct (IH (S i) s1) as (s2 & Hrest & Hs2); [done | |].
    + intros k s' Hk. apply Hbody. lia.
    + exists s2. rewrite for_loop_S, Hrun, bind_Returns.
      split; [done |]. by replace (i + S n) with (S i + n) by lia.
Qed.

Lemma for_range_inv P lo hi body s :
  lo ≤ hi →
  P lo s →
  (∀ k s, lo ≤ k < hi → P k s → ∃ s', body k s = Returns s' ∧ P (S k) s') →
  ∃ s', for_range lo hi body s = Returns s' ∧ P hi s'.
Proof.
  intros Hle Hs Hbody. unfold for_range.
  destruct (for_loop_inv P (hi - lo) lo body s) as (s' & Hrun & Hs'); [done | |].
  - intros k s' Hk. apply Hbody. lia.
  - exists s'. split; [done |]. by replace hi with (lo + (hi - lo)) by lia.
Qed.

End Loops.

Lemma vec_at_Some {A} (v : list A) i x : v !! i = Some x → vec_at v i = Returns x.
Proof. unfold vec_at. by intros ->. Qed.

Lemma vec_set_lt {A} (v : list A) i x :
  i < length v → vec_set v i x = Returns (<[i:=x]> v).
Proof. intros Hi. unfold vec_set. by rewrite decide_True. Qed.

(** ** Shapes and cells *)

Section Shapes.
Context {T : Type} `{Element T}.
Implicit Types (m res : Matrix T) (row : list T).

Lemma has_shape_row m r c i row :
  has_shape m r c → m_matrix m !! i = Some row → length row = c.
Proof. intros [_ Hall] Hrow. by eapply (Forall_lookup_1 _ _ _ _ Hall Hrow). Qed.

Lemma has_shape_lookup m r c i :
  has_shape m r c → i < r → ∃ row, m_matrix m !! i = Some row ∧ length row = c.
Proof.
  intros Hm Hi. destruct (lookup_lt_is_Some_2 (m_matrix m) i) as [row Hrow].
  { destruct Hm as [-> _]. done. }
  exists row. split; [done |]. by eapply has_shape_row.
Qed.

Lemma has_shape_cell m r c i j :
  has_shape m r c → i < r → j < c → ∃ x, cell m i j = Some x.
Proof.
  intros Hm Hi Hj. destruct (has_shape_lookup m r c i Hm Hi) as (row & Hrow & Hlen).
  destruct (lookup_lt_is_Some_2 row j) as [x Hx]; [lia |].
  exists x. unfold cell. by rewrite Hrow.
Qed.

Lemma cell_entry m i j x : cell m i j = Some x → entry m i j = x.
Proof. unfold entry. by intros ->. Qed.

Lemma mat_get_cell m i j x : cell m i j = Some x → mat_get m i j = Returns x.
Proof.
  unfold cell, mat_get. destruct (m_matrix m !! i) as [row|] eqn:Hrow; [|done].
  intros Hx. rewrite (vec_at_Some _ _ _ Hrow), bind_Returns. by apply vec_at_Some.
Qed.

(** A store into a cell that exists returns a matrix of the same shape
    that differs in that cell only. *)
Lemma mat_set_spec m r c i j x :
  has_shape m r c → i < r → j < c →
  ∃ m', mat_set m i j x = Returns m' ∧ has_shape m' r c ∧
    ∀ i' j', cell m' i' j' = if decide (i' = i ∧ j' = j) then Some x else cell m i' j'.
Proof.
  intros Hm Hi Hj. destruct (has_shape_lookup m r c i Hm Hi) as (row & Hrow & Hlen).
  exists (mkMatrix (<[i := <[j := x]> row]> (m_matrix m))).
  assert (i < length (m_matrix m)) as Hil by (destruct Hm as [-> _]; done).
  split; [|split].
  - unfold mat_set. rewrite (vec_at_Some _ _ _ Hrow), bind_Returns.
    rewrite vec_set_lt, bind_Returns by lia. by rewrite vec_set_lt, bind_Returns.
  - destruct Hm as [Hr Hall]. split; cbn.
    + by rewrite length_insert.
    + apply Forall_insert; [done |]. by rewrite length_insert.
  - intros i' j'. unfold cell; cbn. destruct (decide (i' = i)) as [->|Hne].
    + rewrite list_lookup_insert_eq by done. cbn. rewrite Hrow; cbn.
      destruct (decide (j' = j)) as [->|Hnej].
      * rewrite decide_True by done. apply list_lookup_insert_eq. lia.
      * rewrite decide_False by tauto. by apply list_lookup_insert_ne.
    + rewrite decide_False by tauto. by rewrite list_lookup_insert_ne.
Qed.

(** Two matrices of one shape with the same cells are the same matrix. *)
Lemma matrix_ext m1 m2 r c :
  has_shape m1 r c → has_shape m2 r c →
  (∀ i j, i < r → j < c → cell m1 i j = cell m2 i j) →
  m1 = m2.
Proof.
  destruct m1 as [rows1], m2 as [rows2]. intros Hm1 Hm2 Hcells. f_equal.
  apply list_eq. intros i. destruct (decide (i < r)) as [Hi|Hi].
  - destruct (has_shape_lookup _ r c i Hm1 Hi) as (row1 & Hrow1 & Hlen1).
    destruct (has_shape_lookup _ r c i Hm2 Hi) as (row2 & Hrow2 & Hlen2).
    cbn in Hrow1, Hrow2. rewrite Hrow1, Hrow2. f_equal.
    apply list_eq. intros j. destruct (decide (j < c)) as [Hj|Hj].
    + specialize (Hcells i j Hi Hj). unfold cell in Hcells; cbn in Hcells.
      by rewrite Hrow1, Hrow2 in Hcells.
    + by rewrite !lookup_ge_None_2 by lia.
  - destruct Hm1 as [Hr1 _], Hm2 as [Hr2 _]. cbn in Hr1, Hr2.
    by rewrite !lookup_ge_None_2 by lia.
Qed.

Lemma Matrix_of_dims_value_shape (r c : nat) (value : T) :
  has_shape (Matrix_of_dims_value r c value) r c.
Proof.
  split; cbn; [apply length_replicate |].
  apply Forall_replicate. apply length_replicate.
Qed.

Lemma Matrix_of_dims_value_cell (r c : nat) (value : T) i j :
  i < r → j < c → cell (Matrix_of_dims_value r c value) i j = Some value.
Proof.
  intros Hi Hj. unfold cell; cbn. rewrite lookup_replicate_2 by done. cbn.
  by apply lookup_replicate_2.
Qed.

Lemma size_shape m r c : has_shape m r c → 0 < r → size m = Returns (r, c).
Proof.
  intros Hm Hr. destruct (has_shape_lookup m r c 0 Hm Hr) as (row & Hrow & Hlen).
  unfold size. rewrite (vec_at_Some _ _ _ Hrow), bind_Returns.
  destruct Hm as [-> _]. by rewrite Hlen.
Qed.

End Shapes.

(** ** Multiplication *)

Section Multiplication.
Context {T : Type} `{Element T}.
Context (mat1 mat2 : Matrix T) (m n c : nat).
Hypothesis Hlhs : has_shape mat1 m n.
Hypothesis Hrhs : has_shape mat2 n c.

Lemma holds_ext (v v' : nat → nat → T) r c' res :
  (∀ i j, i < r → j < c' → v i j = v' i j) → holds v r c' res → holds v' r c' res.
Proof.
  intros Hv [Hshape Hcells]. split; [done |].
  intros i j Hi Hj. rewrite <- Hv by done. by apply Hcells.
Qed.

Lemma dot_S (lhs rhs : Matrix T) i j k :
  dot lhs rhs i j (S k)
  = T_add (dot lhs rhs i j k) (T_mul (entry lhs i k) (entry rhs k j)).
Proof. unfold dot. by rewrite seq_S, foldl_snoc. Qed.

Lemma holds_zero r c' : holds (λ _ _, T_zero) r c' (Matrix_of_dims r c').
Proof.
  split; [apply Matrix_of_dims_value_shape |].
  intros i j Hi Hj. by apply Matrix_of_dims_value_cell.
Qed.

(** One execution of [res.m_matrix[i][j] += mat1.m_matrix[i][k] * mat2.m_matrix[k][j]]. *)
Lemma mul_step_spec v i k j res :
  holds v m c res → i < m → k < n → j < c →
  ∃ res', mul_step mat1 mat2 i k j res = Returns res' ∧
    holds (λ i' j', if decide (i' = i ∧ j' = j)
                    then T_add (v i j) (T_mul (entry mat1 i k) (entry mat2 k j))
                    else v i' j') m c res'.
Proof.
  intros [Hshape Hcells] Hi Hk Hj.
  destruct (has_shape_cell mat1 m n i k Hlhs Hi Hk) as [a Ha].
  destruct (has_shape_cell mat2 n c k j Hrhs Hk Hj) as [b Hb].
  pose proof (Hcells i j Hi Hj) as Hc.
  destruct (mat_set_spec res m c i j (T_add (v i j) (T_mul a b)) Hshape Hi Hj)
    as (res' & Hset & Hshape' & Hcells').
  exists res'. split.
  - unfold mul_step.
    by rewrite (mat_get_cell _ _ _ _ Ha), bind_Returns,
      (mat_get_cell _ _ _ _ Hb), bind_Returns, (mat_get_cell _ _ _ _ Hc), bind_Returns.
  - split; [done |]. intros i' j' Hi' Hj'. rewrite Hcells'.
    rewrite (cell_entry _ _ _ _ Ha), (cell_entry _ _ _ _ Hb).
    case_decide; [done |]. by apply Hcells.
Qed.

Ltac progress_cases :=
  unfold mul_progress, mul_progress_original;
  repeat case_decide; try lia; try done.

(** *** The loops of [operator*]: [i], then [k], then [j] *)

Lemma mul_j_loop i k res :
  i < m → k < n → holds (mul_progress mat1 mat2 n i k 0) m c res →
  ∃ res', for_range 0 c (λ j res, mul_step mat1 mat2 i k j res) res = Returns res'
        ∧ holds (mul_progress mat1 mat2 n i k c) m c res'.
Proof.
  intros Hi Hk Hres.
  apply (for_range_inv (λ j res, holds (mul_progress mat1 mat2 n i k j) m c res));
    [lia | done |].
  intros j res1 Hj Hres1.
  destruct (mul_step_spec _ i k j res1 Hres1) as (res2 & Hrun & Hres2); [lia.. |].
  exists res2. split; [done |]. revert Hres2. apply holds_ext.
  intros i' j' Hi' Hj'. pose proof (dot_S mat1 mat2 i j k) as HS.
  progress_cases; destruct_and?; subst; progress_cases.
Qed.

Lemma mul_k_loop i res :
  i < m → holds (mul_progress mat1 mat2 n i 0 0) m c res →
  ∃ res', for_range 0 n (λ k res,
            res_i ← vec_at (m_matrix res) i;
            for_range 0 (length res_i) (λ j res, mul_step mat1 mat2 i k j res) res)
          res = Returns res'
        ∧ holds (mul_progress mat1 mat2 n (S i) 0 0) m c res'.
Proof.
  intros Hi Hres.
  destruct (for_range_inv (λ k res, holds (mul_progress mat1 mat2 n i k 0) m c res)
              0 n (λ k res,
                res_i ← vec_at (m_matrix res) i;
                for_range 0 (length res_i) (λ j res, mul_step mat1 mat2 i k j res) res)
              res) as (res' & Hrun & Hres'); [lia | done | |].
  - intros k res1 Hk Hres1.
    destruct (has_shape_lookup res1 m c i (proj1 Hres1) Hi) as (row & Hrow & Hlen).
    destruct (mul_j_loop i k res1) as (res2 & Hrun & Hres2); [done | lia | done |].
    exists res2. rewrite (vec_at_Some _ _ _ Hrow), bind_Returns, Hlen.
    split; [done |]. revert Hres2. apply holds_ext.
    intros i' j' Hi' Hj'. progress_cases.
  - exists res'. split; [done |]. revert Hres'. apply holds_ext.
    intros i' j' Hi' Hj'. progress_cases.
Qed.

Lemma mul_i_loop :
  ∃ res, for_range 0 m (λ i res,
           for_range 0 n (λ k res,
             res_i ← vec_at (m_matrix res) i;
             for_range 0 (length res_i) (λ j res, mul_step mat1 mat2 i k j res) res)
           res) (Matrix_of_dims m c) = Returns res
       ∧ holds (λ i j, dot mat1 mat2 i j n) m c res.
Proof.
  destruct (for_range_inv (λ i res, holds (mul_progress mat1 mat2 n i 0 0) m c res)
              0 m (λ i res,
                for_range 0 n (λ k res,
                  res_i ← vec_at (m_matrix res) i;
                  for_range 0 (length res_i) (λ j res, mul_step mat1 mat2 i k j res) res)
                res) (Matrix_of_dims m c)) as (res & Hrun & Hres); [lia | | |].
  - eapply holds_ext; [|apply holds_zero]. intros i' j' Hi' Hj'. progress_cases.
  - intros i res1 Hi Hres1. apply mul_k_loop; [lia | done].
  - exists res. split; [done |]. revert Hres. apply holds_ext.
    intros i' j' Hi' Hj'. progress_cases.
Qed.

(** *** The loops of the original implementation: [i], then [j], then [k] *)

Lemma original_k_loop i j res :
  i < m → j < c → holds (mul_progress_original mat1 mat2 n i j 0) m c res →
  ∃ res', for_range 0 n (λ k res, mul_step mat1 mat2 i k j res) res = Returns res'
        ∧ holds (mul_progress_original mat1 mat2 n i (S j) 0) m c res'.
Proof.
  intros Hi Hj Hres.
  destruct (for_range_inv
              (λ k res, holds (mul_progress_original mat1 mat2 n i j k) m c res)
              0 n (λ k res, mul_step mat1 mat2 i k j res) res)
    as (res' & Hrun & Hres'); [lia | done | |].
  - intros k res1 Hk Hres1.
    destruct (mul_step_spec _ i k j res1 Hres1) as (res2 & Hrun & Hres2); [lia.. |].
    exists res2. split; [done |]. revert Hres2. apply holds_ext.
    intros i' j' Hi' Hj'. pose proof (dot_S mat1 mat2 i j k) as HS.
    progress_cases; destruct_and?; subst; progress_cases.
  - exists res'. split; [done |]. revert Hres'. apply holds_ext.
    intros i' j' Hi' Hj'. progress_cases.
Qed.

Lemma original_j_loop i res :
  i < m → holds (mul_progress_original mat1 mat2 n i 0 0) m c res →
  ∃ res', for_range 0 c (λ j res,
            for_range 0 n (λ k res, mul_step mat1 mat2 i k j res) res) res
          = Returns res'
        ∧ holds (mul_progress_original mat1 mat2 n (S i) 0 0) m c res'.
Proof.
  intros Hi Hres.
  destruct (for_range_inv
              (λ j res, holds (mul_progress_original mat1 mat2 n i j 0) m c res)
              0 c (λ j res,
                for_range 0 n (λ k res, mul_step mat1 mat2 i k j res) res) res)
    as (res' & Hrun & Hres'); [lia | done | |].
  - intros j res1 Hj Hres1. apply original_k_loop; [done | lia | done].
  - exists res'. split; [done |]. revert Hres'. apply holds_ext.
    intros i' j' Hi' Hj'. progress_cases.
Qed.

Lemma original_i_loop :
  ∃ res, for_range 0 m (λ i res,
           res_i ← vec_at (m_matrix res) i;
           for_range 0 (length res_i) (λ j res,
             for_range 0 n (λ k res, mul_step mat1 mat2 i k j res) res) res)
         (Matrix_of_dims m c) = Returns res
       ∧ holds (λ i j, dot mat1 mat2 i j n) m c res.
Proof.
  destruct (for_range_inv
              (λ i res, holds (mul_progress_original mat1 mat2 n i 0 0) m c res)
              0 m (λ i res,
                res_i ← vec_at (m_matrix res) i;
                for_range 0 (length res_i) (λ j res,
                  for_range 0 n (λ k res, mul_step mat1 mat2 i k j res) res) res)
              (Matrix_of_dims m c)) as (res & Hrun & Hres); [lia | | |].
  - eapply holds_ext; [|apply holds_zero]. intros i' j' Hi' Hj'. progress_cases.
  - intros i res1 Hi Hres1.
    destruct (has_shape_lookup res1 m c i (proj1 Hres1)) as (row & Hrow & Hlen);
      [lia |].
    rewrite (vec_at_Some _ _ _ Hrow), bind_Returns, Hlen.
    apply original_j_loop; [lia | done].
  - exists res. split; [done |]. revert Hres. apply holds_ext.
    intros i' j' Hi' Hj'. progress_cases.
Qed.

(** *** The two functions on operands of shapes [(m, n)] and [(n, c)] *)

Lemma operator_mul_unfold lhs0 rhs0 :
  m_matrix mat1 !! 0 = Some lhs0 → m_matrix mat2 !! 0 = Some rhs0 →
  operator_mul mat1 mat2 =
    (res ← for_range 0 m (λ i res,
       for_range 0 n (λ k res,
         res_i ← vec_at (m_matrix res) i;
         for_range 0 (length res_i) (λ j res, mul_step mat1 mat2 i k j res) res)
       res) (Matrix_of_dims m c);
     Returns res).
Proof.
  intros Hl0 Hr0. unfold operator_mul.
  rewrite (vec_at_Some _ _ _ Hl0), bind_Returns.
  rewrite (has_shape_row _ _ _ _ _ Hlhs Hl0).
  rewrite decide_False by (destruct Hrhs as [-> _]; tauto).
  rewrite (vec_at_Some _ _ _ Hr0), bind_Returns.
  rewrite (has_shape_row _ _ _ _ _ Hrhs Hr0).
  cbn [Matrix_of_dims Matrix_of_dims_value m_matrix].
  rewrite length_replicate. by destruct Hlhs as [-> _].
Qed.

Lemma operator_mul_original_unfold lhs0 rhs0 :
  m_matrix mat1 !! 0 = Some lhs0 → m_matrix mat2 !! 0 = Some rhs0 →
  operator_mul_original mat1 mat2 =
    (res ← for_range 0 m (λ i res,
       res_i ← vec_at (m_matrix res) i;
       for_range 0 (length res_i) (λ j res,
         for_range 0 n (λ k res, mul_step mat1 mat2 i k j res) res) res)
       (Matrix_of_dims m c);
     Returns res).
Proof.
  intros Hl0 Hr0. unfold operator_mul_original.
  rewrite (vec_at_Some _ _ _ Hl0), bind_Returns.
  rewrite (has_shape_row _ _ _ _ _ Hlhs Hl0).
  rewrite decide_True by (by destruct Hrhs as [-> _]).
  rewrite (vec_at_Some _ _ _ Hr0), bind_Returns.
  rewrite (has_shape_row _ _ _ _ _ Hrhs Hr0).
  cbn [Matrix_of_dims Matrix_of_dims_value m_matrix].
  rewrite length_replicate. by destruct Hlhs as [-> _].
Qed.

Lemma operator_mul_holds :
  0 < m → 0 < n →
  ∃ res, operator_mul mat1 mat2 = Returns res
       ∧ holds (λ i j, dot mat1 mat2 i j n) m c res.
Proof.
  intros Hm Hn.
  destruct (has_shape_lookup mat1 m n 0 Hlhs Hm) as (lhs0 & Hl0 & _).
  destruct (has_shape_lookup mat2 n c 0 Hrhs Hn) as (rhs0 & Hr0 & _).
  destruct mul_i_loop as (res & Hrun & Hres).
  exists res. by rewrite (operator_mul_unfold lhs0 rhs0), Hrun.
Qed.

Lemma operator_mul_original_holds :
  0 < m → 0 < n →
  ∃ res, operator_mul_original mat1 mat2 = Returns res
       ∧ holds (λ i j, dot mat1 mat2 i j n) m c res.
Proof.
  intros Hm Hn.
  destruct (has_shape_lookup mat1 m n 0 Hlhs Hm) as (lhs0 & Hl0 & _).
  destruct (has_shape_lookup mat2 n c 0 Hrhs Hn) as (rhs0 & Hr0 & _).
  destruct original_i_loop as (res & Hrun & Hres).
  exists res. by rewrite (operator_mul_original_unfold lhs0 rhs0), Hrun.
Qed.

End Multiplication.

(** ** Transposition *)

Section Transposition.
Context {T : Type} `{Element T}.
Context (this : Matrix T) (r c : nat).
Hypothesis Hthis : has_shape this r c.

(** One execution of [res.m_matrix[j][i] = m_matrix[i][j]]. *)
Lemma transpose_step_spec v i j res :
  holds v c r res → i < r → j < c →
  ∃ res', transpose_step i j (this, res) = Returns (this, res') ∧
    holds (λ j' i', if decide (j' = j ∧ i' = i) then entry this i j else v j' i')
          c r res'.
Proof.
  intros [Hshape Hcells] Hi Hj.
  destruct (has_shape_cell this r c i j Hthis Hi Hj) as [x Hx].
  destruct (mat_set_spec res c r j i x Hshape Hj Hi) as (res' & Hset & Hshape' & Hcells').
  exists res'. split.
  - unfold transpose_step.
    by rewrite (mat_get_cell _ _ _ _ Hx), bind_Returns, Hset, bind_Returns.
  - split; [done |]. intros j' i' Hj' Hi'. rewrite Hcells', (cell_entry _ _ _ _ Hx).
    case_decide; [done |]. by apply Hcells.
Qed.

Ltac transpose_cases :=
  unfold transpose_progress; repeat case_decide; try lia; try done.

Lemma transpose_j_loop i res :
  i < r → holds (transpose_progress this i 0) c r res →
  ∃ res', for_range 0 c (λ j st, transpose_step i j st) (this, res)
          = Returns (this, res')
        ∧ holds (transpose_progress this (S i) 0) c r res'.
Proof.
  intros Hi Hres.
  destruct (for_range_inv
              (λ j st, st.1 = this ∧ holds (transpose_progress this i j) c r st.2)
              0 c (λ j st, transpose_step i j st) (this, res))
    as ([this' res'] & Hrun & Hsame & Hres'); [lia | done | |].
  - intros j [this1 res1] Hj [Hsame Hres1]. cbn in Hsame, Hres1. subst this1.
    destruct (transpose_step_spec _ i j res1 Hres1) as (res2 & Hrun & Hres2); [lia.. |].
    exists (this, res2). split; [done |]. split; [done |]. cbn.
    revert Hres2. apply holds_ext. intros j' i' Hj' Hi'.
    transpose_cases; destruct_and?; subst; transpose_cases.
  - cbn in Hsame, Hres'. subst this'. exists res'. split; [done |].
    revert Hres'. apply holds_ext. intros j' i' Hj' Hi'. transpose_cases.
Qed.

Lemma transpose_holds :
  0 < r →
  ∃ res, transpose this = Returns (this, res)
       ∧ holds (λ j i, entry this i j) c r res.
Proof.
  intros Hr. destruct (has_shape_lookup this r c 0 Hthis Hr) as (this0 & H0 & Hlen).
  unfold transpose. rewrite (vec_at_Some _ _ _ H0), bind_Returns, Hlen.
  destruct Hthis as [Hrows _]. rewrite Hrows.
  destruct (for_range_inv
              (λ i st, st.1 = this ∧ holds (transpose_progress this i 0) c r st.2)
              0 r (λ i st,
                this0 ← vec_at (m_matrix st.1) 0;
                for_range 0 (length this0) (λ j st, transpose_step i j st) st)
              (this, Matrix_of_dims c r))
    as ([this' res] & Hrun & Hsame & Hres); [lia | | |].
  - split; [done |]. cbn. eapply holds_ext; [|apply holds_zero].
    intros j' i' Hj' Hi'. transpose_cases.
  - intros i [this1 res1] Hi [Hsame Hres1]. cbn in Hsame, Hres1. subst this1. cbn.
    rewrite (vec_at_Some _ _ _ H0), bind_Returns, Hlen.
    destruct (transpose_j_loop i res1) as (res2 & Hrun & Hres2); [lia | done |].
    by exists (this, res2).
  - cbn in Hsame, Hres. subst this'. exists res. split; [done |].
    revert Hres. apply holds_ext. intros j' i' Hj' Hi'. transpose_cases.
Qed.

End Transposition.

(** ** The identity matrix *)

Section Identity.
Context {T : Type} `{ElementLaws T}.

Lemma identity_shape n : has_shape (identity n) n n.
Proof.
  split; cbn.
  - by rewrite length_fmap, length_seq.
  - apply Forall_fmap, Forall_forall. intros i _. cbn.
    by rewrite length_fmap, length_seq.
Qed.

Lemma identity_cell n t j :
  t < n → j < n →
  cell (identity n) t j = Some (if decide (t = j) then T_one else T_zero).
Proof.
  intros Ht Hj. unfold cell; cbn.
  rewrite list_lookup_fmap, lookup_seq_lt by done. cbn.
  by rewrite list_lookup_fmap, lookup_seq_lt by done.
Qed.


End Identity.

(** ** Equality *)

Section Equality.
Context {A : Type} (eqb : A → A → bool).

Lemma std_equal_spec (v1 v2 : list A) :
  length v1 = length v2 →
  std_equal eqb v1 v2 = true
  ↔ ∀ i x y, v1 !! i = Some x → v2 !! i = Some y → eqb x y = true.
Proof.
  revert v2. induction v1 as [|x v1 IH]; intros [|y v2] Hlen; try done.
  cbn in Hlen. cbn [std_equal]. rewrite andb_true_iff, IH by lia. split.
  - intros [Hxy Hrest] [|i] x' y' Hx' Hy'; cbn in Hx', Hy'.
    + by simplify_eq.
    + by eapply Hrest.
  - intros Hall. split.
    + by apply (Hall 0).
    + intros i x' y' Hx' Hy'. by apply (Hall (S i)).
Qed.

Lemma vector_eq_spec (v1 v2 : list A) :
  vector_eq eqb v1 v2 = true
  ↔ length v1 = length v2
    ∧ ∀ i x y, v1 !! i = Some x → v2 !! i = Some y → eqb x y = true.
Proof.
  unfold vector_eq. rewrite andb_true_iff, bool_decide_eq_true. split.
  - intros [Hlen Heq]. split; [done |]. by apply std_equal_spec.
  - intros [Hlen Heq]. split; [done |]. by apply std_equal_spec.
Qed.

End Equality.

(** ** Formatting *)

Lemma string_app_assoc (s1 s2 s3 : string) : s1 +:+ (s2 +:+ s3) = (s1 +:+ s2) +:+ s3.
Proof.
  induction s1 as [|a s1 IH]; [done |].
  change (String a (s1 +:+ (s2 +:+ s3)) = String a ((s1 +:+ s2) +:+ s3)).
  by rewrite IH.
Qed.

Lemma string_app_nil_r (s : string) : s +:+ "" = s.
Proof.
  induction s as [|a s IH]; [done |].
  change (String a (s +:+ "") = String a s). by rewrite IH.
Qed.

Section Formatting.
Context {T : Type} `{Element T}.
Context (mat : Matrix T).

Lemma put_cells_loop i row n j (output : ostream) :
  m_matrix mat !! i = Some row → j + n = length row →
  for_loop n j (λ j output,
    x ← mat_get mat i j; Returns (output <<< T_show x <<< " ")) output
  = Returns (output +:+ cells_text (drop j row)).
Proof.
  intros Hrow. revert j output. induction n as [|n IH]; intros j output Hlen.
  - rewrite drop_ge by lia. cbn. by rewrite string_app_nil_r.
  - destruct (lookup_lt_is_Some_2 row j) as [x Hx]; [lia |].
    rewrite for_loop_S, (mat_get_cell mat i j x), !bind_Returns
      by (unfold cell; by rewrite Hrow).
    rewrite IH by lia. rewrite (drop_S _ _ _ Hx). cbn. unfold put.
    by rewrite !string_app_assoc.
Qed.

Lemma put_row_text i row (output : ostream) :
  m_matrix mat !! i = Some row →
  put_row mat i output = Returns (output +:+ row_text row).
Proof.
  intros Hrow. unfold put_row, for_range.
  rewrite (vec_at_Some _ _ _ Hrow), bind_Returns, Nat.sub_0_r.
  rewrite (put_cells_loop i row) by done. rewrite bind_Returns.
  unfold put, row_text. by rewrite !string_app_assoc.
Qed.

(** The loop over the rows before the last, followed by the last row. *)
Lemma put_rows_loop n i (output : ostream) :
  i + S n = length (m_matrix mat) →
  (output ← for_loop n i (λ i output,
     output ← put_row mat i output;
     Returns (output <<< (newline +:+ " "))) output;
   put_row mat (i + n) output)
  = Returns (output +:+ String.concat (newline +:+ " ")
                          (row_text <$> drop i (m_matrix mat))).
Proof.
  revert i output. induction n as [|n IH]; intros i output Hlen.
  - destruct (lookup_lt_is_Some_2 (m_matrix mat) i) as [row Hrow]; [lia |].
    cbn [for_loop]. rewrite bind_Returns, Nat.add_0_r, (put_row_text i row) by done.
    rewrite (drop_S _ _ _ Hrow), drop_ge by lia. done.
  - destruct (lookup_lt_is_Some_2 (m_matrix mat) i) as [row Hrow]; [lia |].
    destruct (lookup_lt_is_Some_2 (m_matrix mat) (S i)) as [next Hnext]; [lia |].
    rewrite for_loop_S, (put_row_text i row), !bind_Returns by done.
    replace (i + S n) with (S i + n) by lia. rewrite IH by lia.
    rewrite (drop_S _ _ _ Hrow), (drop_S _ _ _ Hnext). cbn. unfold put.
    by rewrite !string_app_assoc.
Qed.

End Formatting.

(** ** Construction from a nested sequence *)

Section Nested.
Context {T : Type} `{Element T}.
Context (mat : list (list T)).

Lemma nested_check_rows row p q :
  mat !! (row - 1) = Some p → mat !! row = Some q →
  nested_check mat row ()
  = if decide (length p ≠ length q) then
      Aborts ("" <<< pretty (length p) <<< ", " <<< pretty (length q) <<< newline)
             ("" <<< "Contructor - Matrix dimension do not match" <<< endl)
    else Returns ().
Proof.
  intros Hp Hq. unfold nested_check.
  by rewrite (vec_at_Some _ _ _ Hp), bind_Returns, (vec_at_Some _ _ _ Hq), bind_Returns.
Qed.

(** The loop either runs through, and then no row it visited differs from
    the row before, or aborts at a row that does. *)
Lemma nested_loop n i :
  1 ≤ i → i + n ≤ length mat →
  (for_loop n i (nested_check mat) () = Returns ()
   ∧ ∀ row, i ≤ row < i + n → ¬ adjacent_differ mat row)
  ∨ (aborted (for_loop n i (nested_check mat) ())
     ∧ ∃ row, i ≤ row < i + n ∧ adjacent_differ mat row).
Proof.
  revert i. induction n as [|n IH]; intros i Hi Hlen.
  - left. split; [done |]. intros row Hrow. lia.
  - destruct (lookup_lt_is_Some_2 mat (i - 1)) as [p Hp]; [lia |].
    destruct (lookup_lt_is_Some_2 mat i) as [q Hq]; [lia |].
    rewrite for_loop_S, (nested_check_rows i p q Hp Hq).
    destruct (decide (length p ≠ length q)) as [Hne|Heq].
    + right. split; [by eexists _, _ |]. exists i. split; [lia |]. by exists p, q.
    + rewrite bind_Returns.
      destruct (IH (S i)) as [[Hrun Hall]|[Hrun (row & Hrow & Hdiff)]]; [lia.. | |].
      * left. split; [done |]. intros row Hrow.
        destruct (decide (row = i)) as [->|Hother]; [|apply Hall; lia].
        intros (p' & q' & Hp' & Hq' & Hne). by simplify_eq.
      * right. split; [done |]. exists row. split; [lia | done].
Qed.

Lemma adjacent_equal_rows :
  (∀ row, 1 ≤ row < length mat → ¬ adjacent_differ mat row) → equal_rows mat.
Proof.
  intros Hadj.
  assert (∀ i ri r0, mat !! 0 = Some r0 → mat !! i = Some ri → length ri = length r0)
    as Hfirst.
  { induction i as [|i IH]; intros ri r0 H0 Hi; [by simplify_eq |].
    destruct (lookup_lt_is_Some_2 mat i) as [p Hp].
    { apply lookup_lt_Some in Hi. lia. }
    rewrite <- (IH p r0 H0 Hp).
    destruct (decide (length p = length ri)) as [Heq|Hne]; [done |].
    destruct (Hadj (S i)).
    - apply lookup_lt_Some in Hi. lia.
    - exists p, ri. by rewrite Nat.sub_1_r. }
  intros i j ri rj Hi Hj.
  destruct (lookup_lt_is_Some_2 mat 0) as [r0 H0].
  { apply lookup_lt_Some in Hi. lia. }
  by rewrite (Hfirst i ri r0), (Hfirst j rj r0).
Qed.

Lemma equal_rows_adjacent row : equal_rows mat → ¬ adjacent_differ mat row.
Proof. intros Heq (p & q & Hp & Hq & Hne). by apply Hne, (Heq (row - 1) row). Qed.

Lemma Matrix_of_nested_cases :
  (Matrix_of_nested mat = Returns (mkMatrix mat) ∧ equal_rows mat)
  ∨ (aborted (Matrix_of_nested mat) ∧ ∃ row, 1 ≤ row ∧ adjacent_differ mat row).
Proof.
  unfold Matrix_of_nested, for_range. cbn zeta.
  destruct (decide (length mat = 0)) as [Hempty|Hrows].
  - left. rewrite Hempty. split; [done |].
    intros i j ri rj Hi _. apply lookup_lt_Some in Hi. lia.
  - destruct (nested_loop (length mat - 1) 1)
      as [[Hrun Hall]|[(out & err & Hrun) (row & Hrow & Hdiff)]]; [lia.. | |].
    + left. rewrite Hrun. split; [done |]. apply adjacent_equal_rows.
      intros row Hrow. apply Hall. lia.
    + right. rewrite Hrun. split; [by exists out, err |].
      exists row. split; [lia | done].
Qed.

End Nested.

Section ShapeFacts.
Context {T : Type} `{Element T}.

Lemma min_1x1_shape (m : Matrix T) r c :
  has_shape m r c → min_1x1 m ↔ 0 < r ∧ 0 < c.
Proof.
  intros Hm. unfold min_1x1. split.
  - intros [Hrows Hcols]. destruct Hm as [Hr Hall]. split; [lia |].
    destruct (lookup_lt_is_Some_2 (m_matrix m) 0) as [row Hrow]; [done |].
    rewrite <- (Forall_lookup_1 _ _ _ _ Hall Hrow).
    apply (Forall_lookup_1 _ _ _ _ Hcols Hrow).
  - intros [Hr Hc]. destruct Hm as [Hrows Hall]. split; [lia |].
    eapply Forall_impl; [done |]. intros row Hrow. cbn in Hrow. lia.
Qed.

Lemma equal_rows_shape (mat : list (list T)) :
  equal_rows mat → ∃ c, has_shape (mkMatrix mat) (length mat) c.
Proof.
  intros Heq. destruct mat as [|row0 rest] eqn:Hmat.
  - exists 0. by split.
  - exists (length row0). split; [done |]. cbn. apply Forall_lookup_2.
    intros i row Hrow. by apply (Heq i 0).
Qed.

End ShapeFacts.

(** ** The claims *)

Section Claims.
Context {T : Type} `{Element T}.
Implicit Types (lhs rhs this res : Matrix T).

(** C1: for [lhs] of shape (m, n) and [rhs] of shape (n, k), [operator*]
    returns a matrix of shape (m, k) whose cell (i, j) is the sum over
    t = 0 .. n-1 of [lhs[i][t] * rhs[t][j]], the products being added one
    after the other, with the addition of [T], to the zero of [T]. *)
Theorem operator_mul_correct lhs rhs (m n k : nat) :
  has_shape lhs m n → has_shape rhs n k → 0 < m → 0 < n →
  ∃ res, operator_mul lhs rhs = Returns res ∧ has_shape res m k ∧
    ∀ i j, i < m → j < k → cell res i j = Some (dot lhs rhs i j n).
Proof.
  intros Hlhs Hrhs Hm Hn.
  destruct (operator_mul_holds lhs rhs m n k Hlhs Hrhs Hm Hn)
    as (res & Hrun & Hshape & Hcells).
  by exists res.
Qed.

(** C3: when the number of columns of [lhs] differs from the number of
    rows of [rhs], [operator*] writes its diagnostic and aborts; it returns
    no matrix. *)
Theorem operator_mul_mismatch lhs rhs (m n : nat) :
  size lhs = Returns (m, n) → n ≠ length (m_matrix rhs) →
  operator_mul lhs rhs = Aborts "" ("Matrix dimension do not match" +:+ endl)
  ∧ ¬ returned (operator_mul lhs rhs).
Proof.
  unfold size, operator_mul, vec_at. intros Hsize Hne.
  destruct (m_matrix lhs !! 0) as [lhs0|]; [|done].
  cbn in Hsize |- *. injection Hsize as _ <-.
  rewrite decide_True by done.
  split; [done |]. by intros [res Hres].
Qed.

(** C5: for [this] of shape (r, c), [transpose()] returns a new matrix of
    shape (c, r) whose cell (j, i) is cell (i, j) of [this], and leaves
    [this] as it was. *)
Theorem transpose_correct this (r c : nat) :
  has_shape this r c → 0 < r →
  ∃ res, transpose this = Returns (this, res) ∧ has_shape res c r
    ∧ (∀ i j, i < r → j < c → cell res j i = cell this i j)
    ∧ (0 < c → size res = Returns (c, r)).
Proof.
  intros Hthis Hr.
  destruct (transpose_holds this r c Hthis Hr) as (res & Hrun & Hshape & Hcells).
  exists res. split_and!; [done | done | |].
  - intros i j Hi Hj. rewrite Hcells by done.
    destruct (has_shape_cell this r c i j Hthis Hi Hj) as [x Hx].
    by rewrite Hx, (cell_entry _ _ _ _ Hx).
  - intros Hc. by apply size_shape.
Qed.

(** C7: on operands of shapes (m, n) and (n, k), the loops in the order
    rows, inner dimension, columns return the very matrix that the original
    implementation, with its loops in the order rows, columns, inner
    dimension, returns. *)
Theorem operator_mul_refines_original lhs rhs (m n k : nat) :
  has_shape lhs m n → has_shape rhs n k → 0 < m → 0 < n →
  ∃ res, operator_mul lhs rhs = Returns res
       ∧ operator_mul_original lhs rhs = Returns res.
Proof.
  intros Hlhs Hrhs Hm Hn.
  destruct (operator_mul_holds lhs rhs m n k Hlhs Hrhs Hm Hn)
    as (res & Hrun & Hshape & Hcells).
  destruct (operator_mul_original_holds lhs rhs m n k Hlhs Hrhs Hm Hn)
    as (res' & Hrun' & Hshape' & Hcells').
  exists res. split; [done |]. rewrite Hrun'. f_equal.
  apply (matrix_ext res' res m k); [done | done |].
  intros i j Hi Hj. by rewrite Hcells, Hcells'.
Qed.

(** C6: [operator==] is true exactly when the two matrices have the same
    shape and every two corresponding elements compare equal with [==] of
    [T], and false otherwise; [isSame] gives the same answer. *)
Theorem operator_eq_correct (m1 m2 : Matrix T) (r1 c1 r2 c2 : nat) :
  has_shape m1 r1 c1 → has_shape m2 r2 c2 → 0 < r1 → 0 < r2 →
  (operator_eq m1 m2 = true
   ↔ (r1, c1) = (r2, c2)
     ∧ ∀ i j x y, cell m1 i j = Some x → cell m2 i j = Some y → T_eqb x y = true)
  ∧ isSame m1 m2 = operator_eq m1 m2.
Proof.
  intros Hm1 Hm2 Hr1 Hr2. split; [|done].
  unfold operator_eq. rewrite vector_eq_spec. split.
  - intros [Hrows Heq].
    destruct (has_shape_lookup m1 r1 c1 0 Hm1 Hr1) as (a0 & Ha0 & Hla0).
    destruct (has_shape_lookup m2 r2 c2 0 Hm2 Hr2) as (b0 & Hb0 & Hlb0).
    pose proof (Heq 0 a0 b0 Ha0 Hb0) as H0. apply vector_eq_spec in H0 as [Hc _].
    split.
    + destruct Hm1 as [<- _], Hm2 as [<- _]. f_equal; [done | lia].
    + intros i j x y Hx Hy. unfold cell in Hx, Hy.
      destruct (m_matrix m1 !! i) as [a|] eqn:Ha; [|done].
      destruct (m_matrix m2 !! i) as [b|] eqn:Hb; [|done].
      cbn in Hx, Hy. pose proof (Heq i a b Ha Hb) as Hab.
      apply vector_eq_spec in Hab as [_ Hab]. by eapply Hab.
  - intros [Hshape Hcells]. injection Hshape as <- <-. split.
    + destruct Hm1 as [-> _], Hm2 as [-> _]. done.
    + intros i a b Ha Hb. apply vector_eq_spec. split.
      * by rewrite (has_shape_row _ _ _ _ _ Hm1 Ha), (has_shape_row _ _ _ _ _ Hm2 Hb).
      * intros j x y Hx Hy. apply (Hcells i j); unfold cell.
        -- by rewrite Ha.
        -- by rewrite Hb.
Qed.


(** C9: [operator<<] writes a matrix with at least one row as an opening
    bracket, the rows as [[ e0 e1 ... en ]], a newline and a space after
    every row but the last, a closing bracket and a newline; the overload
    for a size pair writes [(rows, cols)] and a newline; the 1 x 1 matrix
    holding 5 is written as [[[ 5 ]]] and a newline. *)
Theorem operator_shl_correct :
  (∀ (output : ostream) (row : list T) (rows : list (list T)),
     operator_shl output (mkMatrix (row :: rows))
     = Returns (output +:+ matrix_text (row :: rows)))
  ∧ (∀ (output : ostream) (rows cols : nat),
       operator_shl_pair output (rows, cols)
       = output +:+ "(" +:+ pretty rows +:+ ", " +:+ pretty cols +:+ ")" +:+ newline)
  ∧ operator_shl "" (Matrix_of_scalar 5%Z) = Returns ("[[ 5 ]]" +:+ newline).
Proof.
  split_and!; [| |done].
  - intros output row rows. unfold operator_shl. cbn [m_matrix length].
    pose proof (put_rows_loop (mkMatrix (row :: rows)) (length rows) 0
                  (output <<< "[") eq_refl) as Hloop.
    unfold for_range. rewrite Nat.sub_0_r.
    replace (S (length rows) - length rows) with 1 by lia.
    destruct (for_loop (length rows) 0 _ _) as [output1| |]; [|done..].
    rewrite bind_Returns in Hloop |- *. cbn [for_loop].
    cbn [Nat.add] in Hloop. rewrite Hloop, !bind_Returns.
    unfold put, matrix_text. cbn [drop m_matrix]. by rewrite !string_app_assoc.
  - intros output rows cols. unfold operator_shl_pair, put. cbn [fst snd].
    by rewrite !string_app_assoc.
Qed.

(** C10: [size()], [transpose()] and [operator*] read the first row of
    their operand without a guard.  On an operand of at least one row and
    one column the reads are in range: [size()] returns (rows, cols),
    [transpose()] returns, and [operator*] returns or aborts on the
    dimension test.  On an operand without rows the read is out of range:
    [size()], [transpose()] and [operator*] with such a left operand have
    no defined outcome, and [operator*] with such a right operand returns
    nothing. *)
Theorem first_row_access this rhs (r c r2 c2 : nat) :
  has_shape this r c → 0 < r → 0 < c →
  has_shape rhs r2 c2 → 0 < r2 → 0 < c2 →
  (size this = Returns (r, c)
   ∧ returned (transpose this)
   ∧ (returned (operator_mul this rhs) ∨ aborted (operator_mul this rhs)))
  ∧ (∀ none other : Matrix T, m_matrix none = [] →
       size none = Undefined
       ∧ transpose none = Undefined
       ∧ operator_mul none other = Undefined
       ∧ ¬ returned (operator_mul other none)).
Proof.
  intros Hthis Hr Hc Hrhs Hr2 Hc2. split; [split_and! |].
  - by apply size_shape.
  - destruct (transpose_holds this r c Hthis Hr) as (res & Hrun & _).
    by exists (this, res).
  - destruct (decide (c = r2)) as [->|Hne].
    + left. destruct (operator_mul_holds this rhs r r2 c2 Hthis Hrhs Hr Hr2)
        as (res & Hrun & _). by exists res.
    + right. destruct (has_shape_lookup this r c 0 Hthis Hr) as (row0 & Hrow0 & Hlen).
      unfold operator_mul. rewrite (vec_at_Some _ _ _ Hrow0), bind_Returns.
      rewrite decide_True by (destruct Hrhs as [-> _]; lia). by eexists _, _.
  - intros none other Hnone. unfold size, transpose, operator_mul, vec_at.
    rewrite Hnone. split_and!; [done.. |].
    intros [res Hres]. destruct (m_matrix other !! 0) as [lhs0|]; [|done].
    rewrite bind_Returns in Hres. by case_decide.
Qed.

(** C4: construction from a nested sequence aborts when two rows differ
    in length, which it finds by comparing every row with the row before
    it; when all rows have one length [c] it returns the matrix of those
    rows, of shape (number of rows, [c]). *)
Theorem Matrix_of_nested_correct (mat : list (list T)) :
  ((∃ i j ri rj, mat !! i = Some ri ∧ mat !! j = Some rj ∧ length ri ≠ length rj)
   → aborted (Matrix_of_nested mat))
  ∧ (∀ c, Forall (λ row, length row = c) mat →
       Matrix_of_nested mat = Returns (mkMatrix mat)
       ∧ has_shape (mkMatrix mat) (length mat) c)
  ∧ (aborted (Matrix_of_nested mat)
     ↔ ∃ row, 1 ≤ row < length mat ∧ adjacent_differ mat row).
Proof.
  destruct (Matrix_of_nested_cases mat)
    as [[Hrun Heq]|[Hrun (row & Hrow & Hdiff)]]; split_and!.
  - intros (i & j & ri & rj & Hi & Hj & Hne). destruct Hne. by apply (Heq i j).
  - intros c Hall. by split.
  - split.
    + intros (out & err & Habort). by rewrite Hrun in Habort.
    + intros (row & _ & Hdiff). by destruct (equal_rows_adjacent mat row).
  - done.
  - intros c Hall. destruct Hdiff as (p & q & Hp & Hq & Hne). destruct Hne.
    by rewrite (Forall_lookup_1 _ _ _ _ Hall Hp), (Forall_lookup_1 _ _ _ _ Hall Hq).
  - split; [|done]. intros _. exists row. split; [|done]. split; [done |].
    destruct Hdiff as (p & q & _ & Hq & _). by apply lookup_lt_Some in Hq.
Qed.

(** What the constructors build: rows of one length and exactly the shape
    the arguments give, 1 x 1 from a scalar, 1 x N from a sequence of N
    elements, rows x cols from (rows, cols, fill), and the given rows from
    a nested sequence; at least one row and one column exactly when those
    numbers are not zero. *)
Theorem constructors_shape :
  (∀ v : T, has_shape (Matrix_of_scalar v) 1 1 ∧ min_1x1 (Matrix_of_scalar v))
  ∧ (∀ l : list T,
       has_shape (Matrix_of_vector l) 1 (length l)
       ∧ (min_1x1 (Matrix_of_vector l) ↔ 0 < length l))
  ∧ (∀ (rows cols : nat) (fill : T),
       has_shape (Matrix_of_dims_value rows cols fill) rows cols
       ∧ (min_1x1 (Matrix_of_dims_value rows cols fill) ↔ 0 < rows ∧ 0 < cols))
  ∧ (∀ (mat : list (list T)) (m : Matrix T),
       Matrix_of_nested mat = Returns m →
       m_matrix m = mat
       ∧ ∃ c, has_shape m (length mat) c ∧ (min_1x1 m ↔ 0 < length mat ∧ 0 < c)).
Proof.
  split_and!.
  - intros v. assert (has_shape (Matrix_of_scalar v) 1 1) as Hshape.
    { apply (Matrix_of_dims_value_shape 1 1 v). }
    split; [done |]. apply (min_1x1_shape _ 1 1); [done | lia].
  - intros l. assert (has_shape (Matrix_of_vector l) 1 (length l)) as Hshape.
    { split; [done |]. cbn. by repeat constructor. }
    split; [done |]. rewrite (min_1x1_shape _ _ _ Hshape). intuition lia.
  - intros rows cols fill. split; [apply Matrix_of_dims_value_shape |].
    apply min_1x1_shape, Matrix_of_dims_value_shape.
  - intros mat m Hrun.
    destruct (Matrix_of_nested_cases mat) as [[Hret Heq]|[(out & err & Habort) _]];
      [|by rewrite Habort in Hrun].
    rewrite Hret in Hrun. injection Hrun as <-. split; [done |].
    destruct (equal_rows_shape mat Heq) as [c Hshape].
    exists c. split; [done |]. by apply min_1x1_shape.
Qed.

End Claims.

(** ** The claims on the matrices of the specification's examples *)

Ltac concrete_shape := split; [reflexivity | repeat constructor].

Example multiply_squares :
  operator_mul square_a square_b = Returns (mkMatrix [[19; 22]; [43; 50]]%Z).
Proof. reflexivity. Qed.

Example transpose_wide :
  transpose wide = Returns (wide, mkMatrix [[1; 4]; [2; 5]; [3; 6]]%Z).
Proof. reflexivity. Qed.

Example nested_wide :
  Matrix_of_nested [[1; 2; 3]; [4; 5; 6]]%Z = Returns wide
  ∧ size wide = Returns (2, 3) ∧ cell wide 1 2 = Some 6%Z.
Proof. by split_and!. Qed.

Example nested_ragged : aborted (Matrix_of_nested [[1; 2]; [3; 4; 5]]%Z).
Proof. by eexists _, _. Qed.

Lemma operator_mul_correct_witness :
  has_shape square_a 2 2 ∧ has_shape square_b 2 2 ∧
  ∃ res, operator_mul square_a square_b = Returns res ∧ has_shape res 2 2 ∧
    ∀ i j, i < 2 → j < 2 → cell res i j = Some (dot square_a square_b i j 2).
Proof.
  split; [concrete_shape |]. split; [concrete_shape |].
  apply (operator_mul_correct square_a square_b 2 2 2); [concrete_shape.. | lia | lia].
Defined.

Lemma operator_mul_mismatch_witness :
  size row_123 = Returns (1, 3) ∧ 3 ≠ length (m_matrix row_123) ∧
  operator_mul row_123 row_123
  = Aborts "" ("Matrix dimension do not match" +:+ endl)
  ∧ ¬ returned (operator_mul row_123 row_123).
Proof.
  split; [reflexivity |]. split; [cbn; lia |].
  apply (operator_mul_mismatch row_123 row_123 1 3); [reflexivity | cbn; lia].
Defined.

Lemma transpose_correct_witness :
  has_shape wide 2 3 ∧
  ∃ res, transpose wide = Returns (wide, res) ∧ has_shape res 3 2
    ∧ (∀ i j, i < 2 → j < 3 → cell res j i = cell wide i j)
    ∧ (0 < 3 → size res = Returns (3, 2)).
Proof.
  split; [concrete_shape |].
  apply (transpose_correct wide 2 3); [concrete_shape | lia].
Defined.

Lemma operator_eq_correct_witness :
  has_shape wide 2 3 ∧ has_shape row_123 1 3 ∧
  (operator_eq wide row_123 = true
   ↔ (2, 3) = (1, 3)
     ∧ ∀ i j x y, cell wide i j = Some x → cell row_123 i j = Some y
                  → T_eqb x y = true)
  ∧ isSame wide row_123 = operator_eq wide row_123.
Proof.
  split; [concrete_shape |]. split; [concrete_shape |].
  apply (operator_eq_correct wide row_123 2 3 1 3); (concrete_shape || lia).
Defined.

Lemma operator_mul_refines_original_witness :
  has_shape square_a 2 2 ∧ has_shape square_b 2 2 ∧
  ∃ res, operator_mul square_a square_b = Returns res
       ∧ operator_mul_original square_a square_b = Returns res.
Proof.
  split; [concrete_shape |]. split; [concrete_shape |].
  apply (operator_mul_refines_original square_a square_b 2 2 2);
    [concrete_shape.. | lia | lia].
Defined.


Lemma first_row_access_witness :
  has_shape wide 2 3 ∧ has_shape row_123 1 3 ∧
  (size wide = Returns (2, 3)
   ∧ returned (transpose wide)
   ∧ (returned (operator_mul wide row_123) ∨ aborted (operator_mul wide row_123)))
  ∧ (∀ none other : Matrix Z, m_matrix none = [] →
       size none = Undefined
       ∧ transpose none = Undefined
       ∧ operator_mul none other = Undefined
       ∧ ¬ returned (operator_mul other none)).
Proof.
  split; [concrete_shape |]. split; [concrete_shape |].
  apply (first_row_access wide row_123 2 3 1 3); (concrete_shape || lia).
Defined.

(** C2: the constructors at arguments that describe no cell.  The header
    says "Matrix cannot be initialized empty", and [size()], [transpose()],
    [operator*] and [operator<<] read the first row without a test; yet
    [Matrix(0, 3, 7)] and the nested constructor on an empty sequence
    complete with a matrix without rows, on which those reads are out of
    range, and [Matrix(2, 0, 7)] and the constructor on an empty sequence
    complete with rows without columns, the latter transposed into a
    matrix without rows. *)
Theorem constructors_admit_empty :
  (Matrix_of_dims_value 0 3 7%Z = mkMatrix []
   ∧ ¬ min_1x1 (Matrix_of_dims_value 0 3 7%Z)
   ∧ size (Matrix_of_dims_value 0 3 7%Z) = Undefined
   ∧ transpose (Matrix_of_dims_value 0 3 7%Z) = Undefined
   ∧ operator_mul (Matrix_of_dims_value 0 3 7%Z) wide = Undefined
   ∧ operator_shl "" (Matrix_of_dims_value 0 3 7%Z) = Undefined)
  ∧ (Matrix_of_dims_value 2 0 7%Z = mkMatrix [[]; []]
     ∧ ¬ min_1x1 (Matrix_of_dims_value 2 0 7%Z)
     ∧ size (Matrix_of_dims_value 2 0 7%Z) = Returns (2, 0))
  ∧ (Matrix_of_vector (@nil Z) = mkMatrix [[]]
     ∧ ¬ min_1x1 (Matrix_of_vector (@nil Z))
     ∧ size (Matrix_of_vector (@nil Z)) = Returns (1, 0)
     ∧ transpose (Matrix_of_vector (@nil Z))
       = Returns (Matrix_of_vector [], mkMatrix []))
  ∧ (Matrix_of_nested (@nil (list Z)) = Returns (mkMatrix [])
     ∧ ¬ min_1x1 (mkMatrix (@nil (list Z)))
     ∧ size (mkMatrix (@nil (list Z))) = Undefined).
Proof.
  split_and!; try reflexivity; intros [Hrows Hcols]; cbn in *;
    try lia; inversion Hcols; cbn in *; lia.
Qed.


(** ** Further properties of the code *)

Section PartialLoops.
Context {St : Type}.

(** The invariant rule for a loop that is only known to have returned. *)
Lemma for_loop_returns (P : nat → St → Prop) n i body (s s' : St) :
  P i s →
  (∀ k s1 s2, i ≤ k < i + n → P k s1 → body k s1 = Returns s2 → P (S k) s2) →
  for_loop n i body s = Returns s' → P (i + n) s'.
Proof.
  revert i s. induction n as [|n IH]; intros i s Hs Hbody Hrun.
  - cbn in Hrun. injection Hrun as <-. by rewrite Nat.add_0_r.
  - rewrite for_loop_S in Hrun. destruct (body i s) as [s1| |] eqn:Hstep; [|done..].
    rewrite bind_Returns in Hrun. replace (i + S n) with (S i + n) by lia.
    apply (IH (S i) s1); [| |done].
    + apply (Hbody i s s1); [lia | done | done].
    + intros k s2 s3 Hk. apply Hbody. lia.
Qed.

Lemma for_range_returns (P : St → Prop) lo hi body (s s' : St) :
  P s →
  (∀ k s1 s2, P s1 → body k s1 = Returns s2 → P s2) →
  for_range lo hi body s = Returns s' → P s'.
Proof.
  intros Hs Hbody. unfold for_range.
  apply (for_loop_returns (λ _, P)); [done |]. intros k s1 s2 _. apply Hbody.
Qed.

End PartialLoops.

Section ShapeKept.
Context {T : Type} `{Element T}.

Lemma mat_set_shape (m m' : Matrix T) r c i j x :
  has_shape m r c → mat_set m i j x = Returns m' → has_shape m' r c.
Proof.
  intros [Hrows Hall]. unfold mat_set, vec_at, vec_set.
  destruct (m_matrix m !! i) as [row|] eqn:Hrow; [|done]. rewrite bind_Returns.
  destruct (decide (j < length row)); [|done]. rewrite bind_Returns.
  destruct (decide (i < length (m_matrix m))); [|done]. rewrite bind_Returns.
  intros [= <-]. split; cbn.
  - by rewrite length_insert.
  - apply Forall_insert; [done |]. rewrite length_insert.
    apply (Forall_lookup_1 _ _ _ _ Hall Hrow).
Qed.

Lemma mul_step_shape (mat1 mat2 res res' : Matrix T) r c i k j :
  has_shape res r c → mul_step mat1 mat2 i k j res = Returns res' → has_shape res' r c.
Proof.
  intros Hres. unfold mul_step.
  destruct (mat_get mat1 i k) as [a| |]; [|done..]. rewrite bind_Returns.
  destruct (mat_get mat2 k j) as [b| |]; [|done..]. rewrite bind_Returns.
  destruct (mat_get res i j) as [x| |]; [|done..]. rewrite bind_Returns.
  by apply mat_set_shape.
Qed.

Lemma has_shape_no_rows (m : Matrix T) c : has_shape m 0 c → m = mkMatrix [].
Proof. destruct m as [[|row rows]]; intros [Hrows _]; [done | cbn in Hrows; lia]. Qed.

End ShapeKept.

Section Outcomes.
Context {T : Type} `{Element T}.

(** The four ways a product of rectangular operands can go, for the two
    implementations at once. *)
Lemma operator_mul_cases (lhs rhs : Matrix T) (m n r c : nat) :
  has_shape lhs m n → has_shape rhs r c →
  (m = 0 ∧ operator_mul lhs rhs = Undefined
   ∧ operator_mul_original lhs rhs = Undefined)
  ∨ (0 < m ∧ n ≠ r ∧ aborted (operator_mul lhs rhs)
     ∧ aborted (operator_mul_original lhs rhs))
  ∨ (0 < m ∧ n = r ∧ r = 0 ∧ operator_mul lhs rhs = Undefined
     ∧ operator_mul_original lhs rhs = Undefined)
  ∨ (0 < m ∧ n = r ∧ 0 < r
     ∧ ∃ res, operator_mul lhs rhs = Returns res
            ∧ operator_mul_original lhs rhs = Returns res
            ∧ has_shape res m c).
Proof.
  intros Hlhs Hrhs. destruct (decide (m = 0)) as [->|Hm].
  { left. rewrite (has_shape_no_rows lhs n Hlhs). by split_and!. }
  right. destruct (has_shape_lookup lhs m n 0 Hlhs) as (lhs0 & Hl0 & Hlen); [lia |].
  destruct (decide (n = r)) as [->|Hne].
  - right. destruct (decide (r = 0)) as [->|Hr].
    + left. split_and!; [lia | done | done | |];
        unfold operator_mul, operator_mul_original;
        rewrite (vec_at_Some _ _ _ Hl0), bind_Returns, Hlen,
          (has_shape_no_rows rhs c Hrhs); done.
    + right. split_and!; [lia | done | lia |].
      destruct (operator_mul_holds lhs rhs m r c Hlhs Hrhs)
        as (res & Hrun & Hshape & Hcells); [lia.. |].
      destruct (operator_mul_original_holds lhs rhs m r c Hlhs Hrhs)
        as (res' & Hrun' & Hshape' & Hcells'); [lia.. |].
      exists res. split_and!; [done | | done]. rewrite Hrun'. f_equal.
      apply (matrix_ext res' res m c); [done | done |].
      intros i j Hi Hj. by rewrite Hcells, Hcells'.
  - left. split_and!; [lia | done | |];
      unfold operator_mul, operator_mul_original;
      rewrite (vec_at_Some _ _ _ Hl0), bind_Returns, Hlen;
      destruct Hrhs as [-> _].
    + rewrite decide_True by done. by eexists _, _.
    + rewrite decide_False by done. by eexists _, _.
Qed.

Lemma vector_eq_decides {A} (eqb : A → A → bool) :
  (∀ x y, eqb x y = true ↔ x = y) →
  ∀ v1 v2, vector_eq eqb v1 v2 = true ↔ v1 = v2.
Proof.
  intros Heqb v1 v2. rewrite vector_eq_spec. split.
  - intros [Hlen Hall]. apply (list_eq_same_length v1 v2 (length v2)); [done.. |].
    intros i x y _ Hx Hy. apply Heqb. by eapply Hall.
  - intros ->. split; [done |]. intros i x y Hx Hy. simplify_eq. by apply Heqb.
Qed.

(** The loop of the nested constructor aborts at the first row that differs
    from the row before it, with the sizes of the two on [std::cout]. *)
Lemma nested_loop_first (mat : list (list T)) n i row p q :
  1 ≤ i → i ≤ row < i + n → i + n ≤ length mat →
  mat !! (row - 1) = Some p → mat !! row = Some q → length p ≠ length q →
  (∀ row', i ≤ row' < row → ¬ adjacent_differ mat row') →
  for_loop n i (nested_check mat) ()
  = Aborts (pretty (length p) +:+ ", " +:+ pretty (length q) +:+ newline)
           ("Contructor - Matrix dimension do not match" +:+ newline).
Proof.
  revert i. induction n as [|n IH]; intros i Hi Hrow Hlen Hp Hq Hne Hfirst; [lia |].
  rewrite for_loop_S. destruct (decide (i = row)) as [->|Hlater].
  - rewrite (nested_check_rows mat row p q Hp Hq), decide_True by done.
    cbn. unfold put. by rewrite !string_app_assoc.
  - destruct (lookup_lt_is_Some_2 mat (i - 1)) as [p' Hp']; [lia |].
    destruct (lookup_lt_is_Some_2 mat i) as [q' Hq']; [lia |].
    rewrite (nested_check_rows mat i p' q' Hp' Hq').
    destruct (decide (length p' ≠ length q')) as [Hne'|_].
    + destruct (Hfirst i); [lia |]. by exists p', q'.
    + rewrite bind_Returns. apply IH; [lia.. | done | done | done |].
      intros row' Hrow'. apply Hfirst. lia.
Qed.

End Outcomes.

Section Sums.
Context {T : Type} `{Element T}.

Lemma dot_sum (lhs rhs : Matrix T) i j n :
  dot lhs rhs i j n = sum (λ t, T_mul (entry lhs i t) (entry rhs t j)) n.
Proof. reflexivity. Qed.

Lemma sum_S (f : nat → T) n : sum f (S n) = T_add (sum f n) (f n).
Proof. unfold sum. by rewrite seq_S, foldl_snoc. Qed.

Lemma sum_ext (f g : nat → T) n : (∀ t, t < n → f t = g t) → sum f n = sum g n.
Proof.
  induction n as [|n IH]; intros Hfg; [done |].
  rewrite !sum_S, IH, Hfg by (intros; apply Hfg; lia) || lia. done.
Qed.

Lemma holds_entry (v : nat → nat → T) r c (res : Matrix T) i j :
  holds v r c res → i < r → j < c → entry res i j = v i j.
Proof. intros [_ Hcells] Hi Hj. apply cell_entry. by apply Hcells. Qed.

Lemma shape_entry (m : Matrix T) r c i j :
  has_shape m r c → i < r → j < c → cell m i j = Some (entry m i j).
Proof.
  intros Hm Hi Hj. destruct (has_shape_cell m r c i j Hm Hi Hj) as [x Hx].
  by rewrite Hx, (cell_entry _ _ _ _ Hx).
Qed.

Lemma cell_zeros r c i j :
  i < r → j < c → cell (Matrix_of_dims r c) i j = Some T_zero.
Proof. apply Matrix_of_dims_value_cell. Qed.

Lemma entry_zeros r c i j : entry (Matrix_of_dims r c) i j = T_zero.
Proof.
  unfold entry, cell. cbn.
  destruct (replicate r (replicate c T_zero) !! i) as [row|] eqn:Hrow; [|done].
  apply lookup_replicate_1 in Hrow as [-> _]. cbn.
  destruct (replicate c T_zero !! j) as [x|] eqn:Hx; [|done].
  by apply lookup_replicate_1 in Hx as [-> _].
Qed.

Lemma foldl_seq_zip (u v : list T) (acc : T) :
  length u = length v →
  foldl (λ acc t, T_add acc (T_mul (default T_zero (u !! t)) (default T_zero (v !! t))))
        acc (seq 0 (length u))
  = foldl (λ acc xy, T_add acc (T_mul xy.1 xy.2)) acc (zip u v).
Proof.
  revert v acc. induction u as [|x u IH]; intros [|y v] acc Hlen; try done.
  cbn in Hlen. cbn [length seq zip zip_with foldl].
  rewrite <- fmap_S_seq, foldl_fmap. cbn. apply IH. lia.
Qed.

Lemma vector_shape (l : list T) : has_shape (Matrix_of_vector l) 1 (length l).
Proof. split; [done |]. cbn. by repeat constructor. Qed.

Context `{!ElementSemiring T}.

Lemma S_add_0_r (x : T) : T_add x T_zero = x.
Proof. by rewrite S_add_comm, S_add_0_l. Qed.

Lemma add_swap (a b c d : T) :
  T_add (T_add a b) (T_add c d) = T_add (T_add a c) (T_add b d).
Proof.
  rewrite <- (S_add_assoc a b), (S_add_assoc b c d), (S_add_comm b c).
  by rewrite <- (S_add_assoc c b d), (S_add_assoc a c).
Qed.

Lemma sum_zero n : sum (λ _, T_zero) n = T_zero.
Proof. induction n as [|n IH]; [done |]. by rewrite sum_S, IH, S_add_0_l. Qed.

Lemma sum_mul_l a (f : nat → T) n :
  T_mul a (sum f n) = sum (λ t, T_mul a (f t)) n.
Proof.
  induction n as [|n IH]; [apply S_mul_0_r |]. by rewrite !sum_S, S_distr_l, IH.
Qed.

Lemma sum_mul_r (f : nat → T) c n :
  T_mul (sum f n) c = sum (λ t, T_mul (f t) c) n.
Proof.
  induction n as [|n IH]; [apply S_mul_0_l |]. by rewrite !sum_S, S_distr_r, IH.
Qed.

Lemma sum_add (f g : nat → T) n :
  sum (λ t, T_add (f t) (g t)) n = T_add (sum f n) (sum g n).
Proof.
  induction n as [|n IH]; [symmetry; apply S_add_0_l |].
  by rewrite !sum_S, IH, add_swap.
Qed.

(** The two orders of a double sum. *)
Lemma sum_swap (f : nat → nat → T) n k :
  sum (λ s, sum (λ t, f s t) n) k = sum (λ t, sum (λ s, f s t) k) n.
Proof.
  induction k as [|k IH]; [symmetry; apply sum_zero |].
  rewrite sum_S, IH.
  rewrite (sum_ext (λ t, sum (λ s, f s t) (S k))
             (λ t, T_add (sum (λ s, f s t) k) (f k t)))
    by (intros t _; apply (sum_S (λ s, f s t))).
  by rewrite sum_add.
Qed.

(** Row [i] of the identity matrix picks row [i] of the right operand. *)
Lemma identity_dot (m : Matrix T) r i j k :
  i < r → k ≤ r →
  dot (identity r) m i j k = if decide (i < k) then entry m i j else T_zero.
Proof.
  intros Hi. induction k as [|k IH]; intros Hk; [done |].
  rewrite dot_S, IH by lia.
  replace (entry (identity r) i k) with (if decide (i = k) then T_one else T_zero)
    by (unfold entry; by rewrite identity_cell by lia).
  repeat case_decide; try lia; subst.
  - by rewrite S_mul_0_l, S_add_0_r.
  - by rewrite S_mul_1_l, S_add_0_l.
  - by rewrite S_mul_0_l, S_add_0_l.
Qed.

End Sums.

Section Further.
Context {T : Type} `{Element T}.
Implicit Types (lhs rhs this res : Matrix T).

(** X1: whatever the operands, even ragged or without rows, a matrix that
    [operator*] returns has as many rows as [mat1], every row of the length
    of the first row of [mat2], and the dimension test has passed: no caller
    receives a ragged or wrong-shaped product. *)
Theorem operator_mul_returns_shape (mat1 mat2 res : Matrix T) :
  operator_mul mat1 mat2 = Returns res →
  ∃ lhs0 rhs0 : list T,
    m_matrix mat1 !! 0 = Some lhs0 ∧ m_matrix mat2 !! 0 = Some rhs0
    ∧ length lhs0 = length (m_matrix mat2)
    ∧ has_shape res (length (m_matrix mat1)) (length rhs0).
Proof.
  unfold operator_mul, vec_at.
  destruct (m_matrix mat1 !! 0) as [lhs0|]; [|done]. rewrite bind_Returns.
  case_decide as Hdim; [done |].
  destruct (m_matrix mat2 !! 0) as [rhs0|]; [|done]. rewrite bind_Returns.
  intros Hrun. exists lhs0, rhs0. split_and!; [done | done | |].
  { destruct (decide (length lhs0 = length (m_matrix mat2))); [done | tauto]. }
  destruct (for_range _ _ _ _) as [res'| |] eqn:Hloop; [|done..].
  rewrite bind_Returns in Hrun. injection Hrun as ->.
  set (P := λ res, has_shape res (length (m_matrix mat1)) (length rhs0)).
  revert Hloop. apply (for_range_returns P); [apply Matrix_of_dims_value_shape |].
  intros i res1 res2 Hres1. apply (for_range_returns P); [done |].
  intros k res3 res4 Hres3. destruct (m_matrix res3 !! i) as [res_i|]; [|done].
  rewrite bind_Returns. apply (for_range_returns P); [done |].
  intros j res5 res6 Hres5. by apply mul_step_shape.
Qed.

(** X2: whatever the receiver, when [transpose()] returns, the receiver is
    unchanged and the result has as many rows as the receiver's first row
    has elements, each as long as the receiver has rows. *)
Theorem transpose_returns_shape (this this' res : Matrix T) :
  transpose this = Returns (this', res) →
  this' = this
  ∧ ∃ this0 : list T, m_matrix this !! 0 = Some this0
      ∧ has_shape res (length this0) (length (m_matrix this)).
Proof.
  unfold transpose, vec_at.
  destruct (m_matrix this !! 0) as [this0|]; [|done]. rewrite bind_Returns.
  intros Hrun.
  cut (this' = this ∧ has_shape res (length this0) (length (m_matrix this))).
  { intros [-> Hshape]. split; [done |]. by exists this0. }
  revert Hrun.
  apply (for_range_returns
           (λ st, st.1 = this ∧ has_shape st.2 (length this0) (length (m_matrix this)))).
  { split; [done |]. apply Matrix_of_dims_value_shape. }
  intros i st1 st2 Hst1. destruct (match m_matrix st1.1 !! 0 with Some x => _ | None => _ end)
    as [row0| |]; [|done..].
  rewrite bind_Returns.
  apply (for_range_returns
           (λ st, st.1 = this ∧ has_shape st.2 (length this0) (length (m_matrix this))));
    [done |].
  intros j [this3 res3] [this4 res4] [Hsame Hres3]. cbn in Hsame, Hres3.
  unfold transpose_step. destruct (mat_get this3 i j) as [x| |]; [|done..].
  rewrite bind_Returns. destruct (mat_set res3 j i x) as [res5| |] eqn:Hset; [|done..].
  rewrite bind_Returns. intros [= <- <-]. split; [done |]. cbn.
  by eapply mat_set_shape.
Qed.

(** X3: transposing twice gives the matrix back: for a matrix of at least
    one row and one column, [transpose()] of the result of [transpose()]
    returns the matrix itself. *)
Theorem transpose_involutive this (r c : nat) :
  has_shape this r c → 0 < r → 0 < c →
  ∃ res, transpose this = Returns (this, res)
       ∧ transpose res = Returns (res, this).
Proof.
  intros Hthis Hr Hc.
  destruct (transpose_holds this r c Hthis Hr) as (res & Hrun & Hshape & Hcells).
  destruct (transpose_holds res c r Hshape Hc) as (back & Hrun' & Hshape' & Hcells').
  exists res. split; [done |]. rewrite Hrun'. do 2 f_equal.
  apply (matrix_ext back this r c); [done | done |].
  intros i j Hi Hj. rewrite Hcells' by done. unfold entry.
  rewrite Hcells by done. cbn.
  destruct (has_shape_cell this r c i j Hthis Hi Hj) as [x Hx].
  by rewrite Hx, (cell_entry _ _ _ _ Hx).
Qed.

(** X4: a matrix with rows but no columns, as the constructor from an empty
    sequence builds, is transposed into the matrix without rows, on which
    [size()], [transpose()] and [operator<<] read a first row that does not
    exist: the second transposition does not give the matrix back. *)
Theorem transpose_no_columns this (r : nat) :
  has_shape this r 0 → 0 < r →
  transpose this = Returns (this, mkMatrix [])
  ∧ size (mkMatrix (@nil (list T))) = Undefined
  ∧ transpose (mkMatrix (@nil (list T))) = Undefined
  ∧ ∀ output, operator_shl output (mkMatrix (@nil (list T))) = Undefined.
Proof.
  intros Hthis Hr.
  destruct (transpose_holds this r 0 Hthis Hr) as (res & Hrun & Hshape & _).
  by rewrite Hrun, (has_shape_no_rows res r Hshape).
Qed.

(** X5: on operands with rows of one length, [lhs] of m rows of n elements
    and [rhs] of r rows, [operator*] has no defined outcome exactly when
    [lhs] has no rows or both n and r are zero, aborts exactly when [lhs]
    has rows and n differs from r, and returns exactly when [lhs] has rows
    and n = r > 0. *)
Theorem operator_mul_outcomes lhs rhs (m n r c : nat) :
  has_shape lhs m n → has_shape rhs r c →
  (operator_mul lhs rhs = Undefined ↔ m = 0 ∨ (n = 0 ∧ r = 0))
  ∧ (aborted (operator_mul lhs rhs) ↔ 0 < m ∧ n ≠ r)
  ∧ (returned (operator_mul lhs rhs) ↔ 0 < m ∧ n = r ∧ 0 < r).
Proof.
  intros Hlhs Hrhs. unfold aborted, returned.
  destruct (operator_mul_cases lhs rhs m n r c Hlhs Hrhs)
    as [(-> & -> & _)|[(Hm & Hne & (out & err & ->) & _)
       |[(Hm & -> & -> & -> & _)|(Hm & -> & Hr & res & -> & _)]]];
    split_and!; split; try (intros (? & ? & ?)); try (intros (? & ?));
    try done; try lia; eauto.
Qed.

(** X6: on operands with rows of one length the original implementation
    ends as [operator*] does, also where no product exists: both return,
    and then the same matrix, or both abort, or both read out of range. *)
Theorem operator_mul_original_agrees lhs rhs (m n r c : nat) :
  has_shape lhs m n → has_shape rhs r c →
  (∀ res, operator_mul lhs rhs = Returns res
          ↔ operator_mul_original lhs rhs = Returns res)
  ∧ (aborted (operator_mul lhs rhs) ↔ aborted (operator_mul_original lhs rhs))
  ∧ (operator_mul lhs rhs = Undefined ↔ operator_mul_original lhs rhs = Undefined).
Proof.
  intros Hlhs Hrhs.
  destruct (operator_mul_cases lhs rhs m n r c Hlhs Hrhs)
    as [(_ & -> & ->)|[(_ & _ & Habort & Habort')
       |[(_ & _ & _ & -> & ->)|(_ & _ & _ & res & -> & -> & _)]]];
    try done.
  destruct Habort as (out & err & ->), Habort' as (out' & err' & ->).
  split_and!; [done | | done]. split; intros _; by eexists _, _.
Qed.

(** X7: the invariant of the class is kept: on matrices with rows of one
    length, at least one row and one column, [transpose()] returns such a
    matrix, and [operator*] returns or aborts, and what it returns is such
    a matrix. *)
Theorem valid_kept this rhs :
  valid this → valid rhs →
  (∃ res, transpose this = Returns (this, res) ∧ valid res)
  ∧ (returned (operator_mul this rhs) ∨ aborted (operator_mul this rhs))
  ∧ (∀ res, operator_mul this rhs = Returns res → valid res).
Proof.
  intros (m & n & Hm & Hn & Hthis) (r & c & Hr & Hc & Hrhs). split_and!.
  - destruct (transpose_holds this m n Hthis Hm) as (res & Hrun & Hshape & _).
    exists res. split; [done |]. by exists n, m.
  - destruct (operator_mul_cases this rhs m n r c Hthis Hrhs)
      as [(-> & _)|[(_ & _ & Habort & _)|[(_ & _ & -> & _)|(_ & _ & _ & res & -> & _)]]];
      [lia | by right | lia | left; by exists res].
  - intros res Hrun.
    destruct (operator_mul_cases this rhs m n r c Hthis Hrhs)
      as [(-> & _)|[(_ & _ & (out & err & Habort) & _)
         |[(_ & _ & -> & _)|(_ & _ & _ & res' & Hrun' & _ & Hshape)]]];
      [lia | by rewrite Habort in Hrun | lia |].
    rewrite Hrun' in Hrun. injection Hrun as <-. by exists m, c.
Qed.

(** X8: when [==] of the element type decides equality, [operator==] and
    [isSame] decide equality of matrices, of whatever shapes: they are true
    on a pair exactly when the two matrices have the same rows. *)
Theorem operator_eq_decides :
  (∀ x y : T, T_eqb x y = true ↔ x = y) →
  ∀ m1 m2 : Matrix T,
    (operator_eq m1 m2 = true ↔ m1 = m2) ∧ (isSame m1 m2 = true ↔ m1 = m2).
Proof.
  intros Heqb m1 m2.
  assert (operator_eq m1 m2 = true ↔ m1 = m2) as Hdecides; [|done].
  unfold operator_eq.
  rewrite (vector_eq_decides _ (vector_eq_decides T_eqb Heqb)).
  destruct m1, m2; cbn. split; [by intros -> | by intros [= ->]].
Qed.

(** X9: on a nested sequence whose row [row] is the first that differs in
    length from the row before it, the constructor aborts with the two
    sizes, separated by a comma, on [std::cout] and its message on
    [std::cerr]. *)
Theorem Matrix_of_nested_diagnostic (mat : list (list T)) (row : nat) (p q : list T) :
  1 ≤ row → mat !! (row - 1) = Some p → mat !! row = Some q →
  length p ≠ length q →
  (∀ row', 1 ≤ row' < row → ¬ adjacent_differ mat row') →
  Matrix_of_nested mat
  = Aborts (pretty (length p) +:+ ", " +:+ pretty (length q) +:+ newline)
           ("Contructor - Matrix dimension do not match" +:+ newline).
Proof.
  intros Hrow Hp Hq Hne Hfirst. unfold Matrix_of_nested, for_range. cbn zeta.
  apply lookup_lt_Some in Hq as Hlen.
  by rewrite (nested_loop_first mat (length mat - 1) 1 row p q) by (done || lia).
Qed.

(** X10: the identity matrix is also neutral on the left: for an element
    type that is a semiring, the r x r identity matrix multiplied by a
    matrix of r rows returns that matrix. *)
Theorem identity_operator_mul `{!ElementSemiring T} (m : Matrix T) (r c : nat) :
  has_shape m r c → 0 < r →
  operator_mul (identity r) m = Returns m.
Proof.
  intros Hm Hr.
  destruct (operator_mul_holds (identity r) m r r c (identity_shape r) Hm Hr Hr)
    as (res & Hrun & Hshape & Hcells).
  rewrite Hrun. f_equal. apply (matrix_ext res m r c); [done | done |].
  intros i j Hi Hj. rewrite Hcells, identity_dot by lia.
  rewrite decide_True by done. symmetry. by eapply shape_entry.
Qed.

(** X11: for an element type that is a semiring, a product with the matrix
    of zeros that [Matrix(rows, cols)] builds is the matrix of zeros, on
    either side. *)
Theorem operator_mul_zeros `{!ElementSemiring T} (m : Matrix T) (r n k : nat) :
  has_shape m r n → 0 < r → 0 < n → 0 < k →
  operator_mul m (Matrix_of_dims n k) = Returns (Matrix_of_dims r k)
  ∧ operator_mul (Matrix_of_dims k r) m = Returns (Matrix_of_dims k n).
Proof.
  intros Hm Hr Hn Hk. split.
  - destruct (operator_mul_holds m (Matrix_of_dims n k) r n k Hm
                (Matrix_of_dims_value_shape n k T_zero) Hr Hn)
      as (res & Hrun & Hshape & Hcells).
    rewrite Hrun. f_equal.
    apply (matrix_ext res _ r k); [done | apply Matrix_of_dims_value_shape |].
    intros i j Hi Hj. rewrite Hcells by done.
    rewrite cell_zeros by done. f_equal.
    rewrite dot_sum, (sum_ext _ (λ _, T_zero)); [apply sum_zero |].
    intros t _. by rewrite entry_zeros, S_mul_0_r.
  - destruct (operator_mul_holds (Matrix_of_dims k r) m k r n
                (Matrix_of_dims_value_shape k r T_zero) Hm Hk Hr)
      as (res & Hrun & Hshape & Hcells).
    rewrite Hrun. f_equal.
    apply (matrix_ext res _ k n); [done | apply Matrix_of_dims_value_shape |].
    intros i j Hi Hj. rewrite Hcells by done.
    rewrite cell_zeros by done. f_equal.
    rewrite dot_sum, (sum_ext _ (λ _, T_zero)); [apply sum_zero |].
    intros t _. by rewrite entry_zeros, S_mul_0_l.
Qed.

(** X12: products chain, and for an element type that is a semiring the
    chain may be bracketed either way: on operands of shapes (m, n), (n, k)
    and (k, l), [(a * b) * c] and [a * (b * c)] return the same matrix. *)
Theorem operator_mul_assoc `{!ElementSemiring T} (a b c : Matrix T) (m n k l : nat) :
  has_shape a m n → has_shape b n k → has_shape c k l →
  0 < m → 0 < n → 0 < k →
  ∃ ab bc abc,
    operator_mul a b = Returns ab ∧ operator_mul b c = Returns bc
    ∧ operator_mul ab c = Returns abc ∧ operator_mul a bc = Returns abc
    ∧ has_shape abc m l.
Proof.
  intros Ha Hb Hc Hm Hn Hk.
  destruct (operator_mul_holds a b m n k Ha Hb Hm Hn) as (ab & Hab & Hab_holds).
  destruct (operator_mul_holds b c n k l Hb Hc Hn Hk) as (bc & Hbc & Hbc_holds).
  destruct (operator_mul_holds ab c m k l (proj1 Hab_holds) Hc Hm Hk)
    as (abc & Habc & Hshape & Hcells).
  destruct (operator_mul_holds a bc m n l Ha (proj1 Hbc_holds) Hm Hn)
    as (abc' & Habc' & Hshape' & Hcells').
  exists ab, bc, abc. split_and!; [done.. | | done]. rewrite Habc'. f_equal.
  apply (matrix_ext abc' abc m l); [done | done |].
  intros i j Hi Hj. rewrite Hcells, Hcells' by done. f_equal.
  rewrite !dot_sum.
  rewrite (sum_ext (λ t, T_mul (entry a i t) (entry bc t j))
             (λ t, sum (λ s, T_mul (T_mul (entry a i t) (entry b t s)) (entry c s j)) k)).
  2:{ intros t Ht. rewrite (holds_entry _ n l bc t j Hbc_holds) by done.
      rewrite dot_sum, sum_mul_l. apply sum_ext. intros s _. apply S_mul_assoc. }
  rewrite (sum_ext (λ s, T_mul (entry ab i s) (entry c s j))
             (λ s, sum (λ t, T_mul (T_mul (entry a i t) (entry b t s)) (entry c s j)) n)).
  2:{ intros s Hs. rewrite (holds_entry _ m k ab i s Hab_holds) by done.
      by rewrite dot_sum, sum_mul_r. }
  by rewrite sum_swap.
Qed.

(** X13: when [*] of the element type is commutative, the transpose of a
    product is the product of the transposes in the other order. *)
Theorem transpose_operator_mul (a b : Matrix T) (m n k : nat) :
  (∀ x y : T, T_mul x y = T_mul y x) →
  has_shape a m n → has_shape b n k → 0 < m → 0 < n → 0 < k →
  ∃ ab abt at' bt,
    operator_mul a b = Returns ab ∧ transpose ab = Returns (ab, abt)
    ∧ transpose a = Returns (a, at') ∧ transpose b = Returns (b, bt)
    ∧ operator_mul bt at' = Returns abt.
Proof.
  intros Hcomm Ha Hb Hm Hn Hk.
  destruct (operator_mul_holds a b m n k Ha Hb Hm Hn) as (ab & Hab & Hab_holds).
  destruct (transpose_holds ab m k (proj1 Hab_holds) Hm) as (abt & Habt & Hshape & Hcells).
  destruct (transpose_holds a m n Ha Hm) as (at' & Hat & Hat_holds).
  destruct (transpose_holds b n k Hb Hn) as (bt & Hbt & Hbt_holds).
  destruct (operator_mul_holds bt at' k n m (proj1 Hbt_holds) (proj1 Hat_holds) Hk Hn)
    as (res & Hres & Hshape' & Hcells').
  exists ab, abt, at', bt. split_and!; [done.. |]. rewrite Hres. f_equal.
  apply (matrix_ext res abt k m); [done | done |].
  intros j i Hj Hi. rewrite Hcells, Hcells' by done. f_equal.
  rewrite (holds_entry _ m k ab i j Hab_holds) by done.
  rewrite !dot_sum. apply sum_ext. intros t Ht.
  rewrite (holds_entry _ k n bt j t Hbt_holds), (holds_entry _ n m at' t i Hat_holds)
    by done.
  apply Hcomm.
Qed.

(** X14: a matrix and its transpose always pass the dimension test, in
    either order: for a matrix of r rows and c columns the product with the
    transpose returns an r x r matrix whose cell (i, j) sums the products of
    rows i and j, and the product in the other order returns a c x c matrix. *)
Theorem operator_mul_transposed this (r c : nat) :
  has_shape this r c → 0 < r → 0 < c →
  ∃ res p q,
    transpose this = Returns (this, res)
    ∧ operator_mul this res = Returns p ∧ has_shape p r r
    ∧ (∀ i j, i < r → j < r →
         cell p i j = Some (sum (λ t, T_mul (entry this i t) (entry this j t)) c))
    ∧ operator_mul res this = Returns q ∧ has_shape q c c.
Proof.
  intros Hthis Hr Hc.
  destruct (transpose_holds this r c Hthis Hr) as (res & Hrun & Hres).
  destruct (operator_mul_holds this res r c r Hthis (proj1 Hres) Hr Hc)
    as (p & Hp & Hpshape & Hpcells).
  destruct (operator_mul_holds res this c r c (proj1 Hres) Hthis Hc Hr)
    as (q & Hq & Hqshape & _).
  exists res, p, q. split_and!; [done.. | | done | done].
  intros i j Hi Hj. rewrite Hpcells by done. f_equal.
  rewrite dot_sum. apply sum_ext. intros t Ht.
  by rewrite (holds_entry _ c r res t j Hres).
Qed.

(** X15: what the constructors store: the scalar in cell (0, 0); the
    elements of the sequence, in order, in row 0; the fill value in every
    cell of the rows x cols grid and nothing outside it.  [size()] of the
    matrix built from a sequence is (1, N), also for N = 0, and [size()] of
    the matrix built from (rows, cols, fill) is (rows, cols) unless rows is
    0, when it reads a row that does not exist. *)
Theorem constructors_contents :
  (∀ v : T, size (Matrix_of_scalar v) = Returns (1, 1)
            ∧ cell (Matrix_of_scalar v) 0 0 = Some v)
  ∧ (∀ l : list T, size (Matrix_of_vector l) = Returns (1, length l)
                   ∧ ∀ j, cell (Matrix_of_vector l) 0 j = l !! j)
  ∧ (∀ (rows cols : nat) (fill : T),
       size (Matrix_of_dims_value rows cols fill)
       = (if decide (rows = 0) then Undefined else Returns (rows, cols))
       ∧ ∀ i j, cell (Matrix_of_dims_value rows cols fill) i j
                = if decide (i < rows ∧ j < cols) then Some fill else None).
Proof.
  split_and!; [done | done |].
  intros rows cols fill. split.
  - destruct rows as [|rows]; [done |]. cbn. by rewrite !length_replicate.
  - intros i j. unfold cell. cbn. case_decide as Hin.
    + destruct Hin as [Hi Hj]. rewrite lookup_replicate_2 by done. cbn.
      by apply lookup_replicate_2.
    + destruct (replicate rows (replicate cols fill) !! i) as [row|] eqn:Hrow; [|done].
      apply lookup_replicate_1 in Hrow as [-> Hi]. cbn.
      apply lookup_ge_None_2. rewrite length_replicate. lia.
Qed.

(** X16: a row vector times a transposed row vector is their inner
    product: for two sequences of one length N > 0, the matrix of the first
    multiplied by the transpose of the matrix of the second returns the
    1 x 1 matrix holding the sum of the products of their elements, pair by
    pair. *)
Theorem vector_inner_product (u v : list T) :
  length u = length v → 0 < length u →
  ∃ vt, transpose (Matrix_of_vector v) = Returns (Matrix_of_vector v, vt)
      ∧ operator_mul (Matrix_of_vector u) vt = Returns (Matrix_of_scalar (inner u v)).
Proof.
  intros Hlen Hn.
  destruct (transpose_holds (Matrix_of_vector v) 1 (length v) (vector_shape v))
    as (vt & Hvt & Hvt_holds); [lia |].
  rewrite <- Hlen in Hvt_holds.
  destruct (operator_mul_holds (Matrix_of_vector u) vt 1 (length u) 1
              (vector_shape u) (proj1 Hvt_holds))
    as (res & Hres & Hshape & Hcells); [lia.. |].
  exists vt. split; [done |]. rewrite Hres. f_equal.
  apply (matrix_ext res _ 1 1); [done | apply (Matrix_of_dims_value_shape 1 1) |].
  intros i j Hi Hj. replace i with 0 by lia. replace j with 0 by lia.
  rewrite Hcells by lia. cbn. f_equal. unfold inner.
  rewrite <- foldl_seq_zip by done. rewrite dot_sum. apply sum_ext.
  intros t Ht. by rewrite (holds_entry _ (length u) 1 vt t 0 Hvt_holds) by lia.
Qed.

End Further.

(** ** The further properties on the matrices of the examples *)

Lemma operator_mul_returns_shape_witness :
  operator_mul square_a square_b = Returns (mkMatrix [[19; 22]; [43; 50]]%Z)
  ∧ ∃ lhs0 rhs0 : list Z,
      m_matrix square_a !! 0 = Some lhs0 ∧ m_matrix square_b !! 0 = Some rhs0
      ∧ length lhs0 = length (m_matrix square_b)
      ∧ has_shape (mkMatrix [[19; 22]; [43; 50]]%Z)
          (length (m_matrix square_a)) (length rhs0).
Proof.
  split; [reflexivity |].
  apply (operator_mul_returns_shape square_a square_b). reflexivity.
Defined.

Lemma transpose_returns_shape_witness :
  transpose wide = Returns (wide, tall)
  ∧ wide = wide
  ∧ ∃ this0 : list Z, m_matrix wide !! 0 = Some this0
      ∧ has_shape tall (length this0) (length (m_matrix wide)).
Proof.
  split; [reflexivity |]. apply (transpose_returns_shape wide wide tall). reflexivity.
Defined.

Lemma transpose_involutive_witness :
  has_shape wide 2 3
  ∧ ∃ res, transpose wide = Returns (wide, res) ∧ transpose res = Returns (res, wide).
Proof.
  split; [concrete_shape |].
  apply (transpose_involutive wide 2 3); [concrete_shape | lia | lia].
Defined.

Lemma transpose_no_columns_witness :
  has_shape (Matrix_of_vector (@nil Z)) 1 0
  ∧ transpose (Matrix_of_vector (@nil Z)) = Returns (Matrix_of_vector [], mkMatrix [])
  ∧ size (mkMatrix (@nil (list Z))) = Undefined
  ∧ transpose (mkMatrix (@nil (list Z))) = Undefined
  ∧ ∀ output, operator_shl output (mkMatrix (@nil (list Z))) = Undefined.
Proof.
  split; [concrete_shape |].
  apply (transpose_no_columns (Matrix_of_vector (@nil Z)) 1); [concrete_shape | lia].
Defined.

Lemma operator_mul_outcomes_witness :
  has_shape wide 2 3 ∧ has_shape row_123 1 3
  ∧ (operator_mul wide row_123 = Undefined ↔ 2 = 0 ∨ (3 = 0 ∧ 1 = 0))
  ∧ (aborted (operator_mul wide row_123) ↔ 0 < 2 ∧ 3 ≠ 1)
  ∧ (returned (operator_mul wide row_123) ↔ 0 < 2 ∧ 3 = 1 ∧ 0 < 1).
Proof.
  split; [concrete_shape |]. split; [concrete_shape |].
  apply (operator_mul_outcomes wide row_123 2 3 1 3); concrete_shape.
Defined.

Lemma operator_mul_original_agrees_witness :
  has_shape wide 2 3 ∧ has_shape tall 3 2
  ∧ (∀ res, operator_mul wide tall = Returns res
            ↔ operator_mul_original wide tall = Returns res)
  ∧ (aborted (operator_mul wide tall) ↔ aborted (operator_mul_original wide tall))
  ∧ (operator_mul wide tall = Undefined ↔ operator_mul_original wide tall = Undefined).
Proof.
  split; [concrete_shape |]. split; [concrete_shape |].
  apply (operator_mul_original_agrees wide tall 2 3 3 2); concrete_shape.
Defined.

Lemma valid_kept_witness :
  valid wide ∧ valid tall
  ∧ (∃ res, transpose wide = Returns (wide, res) ∧ valid res)
  ∧ (returned (operator_mul wide tall) ∨ aborted (operator_mul wide tall))
  ∧ (∀ res, operator_mul wide tall = Returns res → valid res).
Proof.
  assert (valid wide) as Hwide.
  { exists 2, 3. split; [lia |]. split; [lia | concrete_shape]. }
  assert (valid tall) as Htall.
  { exists 3, 2. split; [lia |]. split; [lia | concrete_shape]. }
  split; [exact Hwide |]. split; [exact Htall |].
  exact (valid_kept wide tall Hwide Htall).
Defined.

Lemma operator_eq_decides_witness :
  (operator_eq wide row_123 = true ↔ wide = row_123)
  ∧ (isSame wide row_123 = true ↔ wide = row_123).
Proof. exact (operator_eq_decides Z.eqb_eq wide row_123). Defined.

Lemma Matrix_of_nested_diagnostic_witness :
  Matrix_of_nested [[1; 2]; [3; 4; 5]]%Z
  = Aborts (pretty 2 +:+ ", " +:+ pretty 3 +:+ newline)
           ("Contructor - Matrix dimension do not match" +:+ newline).
Proof.
  apply (Matrix_of_nested_diagnostic [[1; 2]; [3; 4; 5]]%Z 1 [1; 2]%Z [3; 4; 5]%Z);
    [lia | reflexivity | reflexivity | cbn; lia | intros row' Hrow'; lia].
Defined.

Lemma identity_operator_mul_witness :
  has_shape wide 2 3 ∧ operator_mul (identity 2) wide = Returns wide.
Proof.
  split; [concrete_shape |].
  apply (identity_operator_mul wide 2 3); [concrete_shape | lia].
Defined.

Lemma operator_mul_zeros_witness :
  has_shape wide 2 3
  ∧ operator_mul wide (Matrix_of_dims 3 2) = Returns (Matrix_of_dims 2 2)
  ∧ operator_mul (Matrix_of_dims 2 2) wide = Returns (Matrix_of_dims 2 3).
Proof.
  split; [concrete_shape |].
  apply (operator_mul_zeros wide 2 3 2); [concrete_shape | lia | lia | lia].
Defined.

Lemma operator_mul_assoc_witness :
  has_shape wide 2 3 ∧ has_shape tall 3 2 ∧ has_shape square_a 2 2
  ∧ ∃ ab bc abc,
      operator_mul wide tall = Returns ab ∧ operator_mul tall square_a = Returns bc
      ∧ operator_mul ab square_a = Returns abc ∧ operator_mul wide bc = Returns abc
      ∧ has_shape abc 2 2.
Proof.
  split; [concrete_shape |]. split; [concrete_shape |]. split; [concrete_shape |].
  apply (operator_mul_assoc wide tall square_a 2 3 2 2); (concrete_shape || lia).
Defined.

Lemma transpose_operator_mul_witness :
  has_shape wide 2 3 ∧ has_shape tall 3 2
  ∧ ∃ ab abt at' bt,
      operator_mul wide tall = Returns ab ∧ transpose ab = Returns (ab, abt)
      ∧ transpose wide = Returns (wide, at') ∧ transpose tall = Returns (tall, bt)
      ∧ operator_mul bt at' = Returns abt.
Proof.
  split; [concrete_shape |]. split; [concrete_shape |].
  apply (@transpose_operator_mul Z Z_Element wide tall 2 3 2 Z.mul_comm);
    (concrete_shape || lia).
Defined.

Lemma operator_mul_transposed_witness :
  has_shape wide 2 3
  ∧ ∃ res p q,
      transpose wide = Returns (wide, res)
      ∧ operator_mul wide res = Returns p ∧ has_shape p 2 2
      ∧ (∀ i j, i < 2 → j < 2 →
           cell p i j = Some (sum (λ t, T_mul (entry wide i t) (entry wide j t)) 3))
      ∧ operator_mul res wide = Returns q ∧ has_shape q 3 3.
Proof.
  split; [concrete_shape |].
  apply (operator_mul_transposed wide 2 3); (concrete_shape || lia).
Defined.

Lemma vector_inner_product_witness :
  ∃ vt, transpose (Matrix_of_vector [1; 2; 3]%Z)
        = Returns (Matrix_of_vector [1; 2; 3]%Z, vt)
      ∧ operator_mul (Matrix_of_vector [1; 2; 3]%Z) vt
        = Returns (Matrix_of_scalar (inner [1; 2; 3]%Z [1; 2; 3]%Z)).
Proof.
  apply (vector_inner_product [1; 2; 3]%Z [1; 2; 3]%Z); [reflexivity | cbn; lia].
Defined.
